(** * kubexit tombstones: a shallow embedding of [pkg/tombstone/tombstone.go]

    The development has two parts.  The first part holds the definitions:
    small executable models of the collaborators the package calls into
    (the [time], [path/filepath], [os]/[io/ioutil], [encoding/json],
    [sigs.k8s.io/yaml], [log] and [fsnotify] packages), followed by the
    package itself, function by function.  The second part holds the
    lemmas about the collaborators and the theorems about the package. *)

From Stdlib Require Import ZArith Ascii String List Lia Bool.
From Stdlib Require Import DecimalString DecimalPos DecimalZ.
From stdpp Require Import base option list strings gmap sorting.

Local Open Scope string_scope.
Local Open Scope Z_scope.

(** Go's [error] values are only ever formatted with [%v] in this package,
    so an error is modelled by its message. *)
Definition error := string.

(** Results of fallible calls: [inl] carries the error, [inr] the value. *)
Abbreviation result A := (error + A)%type.

(** ** Text helpers *)

Module text.

Definition is_digit (c : ascii) : bool :=
  let n := nat_of_ascii c in (48 <=? n)%nat && (n <=? 57)%nat.

Definition digit_value (c : ascii) : Z := Z.of_nat (nat_of_ascii c - 48).

Definition digit_char (d : Z) : ascii := ascii_of_nat (48 + Z.to_nat d).

(** [pad_int width x tail] writes the [width] low decimal digits of [x],
    zero padded, in front of [tail]. *)
Fixpoint pad_int (width : nat) (x : Z) (tail : string) : string :=
  match width with
  | O => tail
  | S w => pad_int w (x / 10) (String (digit_char (x mod 10)) tail)
  end.

(** Reads exactly [width] decimal digits. *)
Fixpoint take_digits (width : nat) (acc : Z) (s : string) : option (Z * string) :=
  match width with
  | O => Some (acc, s)
  | S w =>
      match s with
      | String c r => if is_digit c then take_digits w (10 * acc + digit_value c) r else None
      | EmptyString => None
      end
  end.

(** Reads a maximal run of decimal digits; only the first [keep] of them
    contribute to the value.  Returns the value, the number of digits
    that contributed and the rest of the text. *)
Fixpoint span_digits (keep : nat) (acc : Z) (used : nat) (s : string) : Z * nat * string :=
  match s with
  | String c r =>
      if is_digit c then
        match keep with
        | O => span_digits O acc used r
        | S k => span_digits k (10 * acc + digit_value c) (S used) r
        end
      else (acc, used, s)
  | EmptyString => (acc, used, s)
  end.

Definition starts_with_digit (s : string) : bool :=
  match s with String c _ => is_digit c | EmptyString => false end.

Definition expect (c : ascii) (s : string) : option string :=
  match s with
  | String c' r => if Ascii.eqb c c' then Some r else None
  | EmptyString => None
  end.

(** [strconv.Itoa]. *)
Definition itoa (x : Z) : string := NilZero.string_of_int (Z.to_int x).

(** Reads back exactly the texts [itoa] writes: an optional minus sign
    and decimal digits without superfluous leading zeros. *)
Definition atoi (s : string) : option Z :=
  match NilZero.int_of_string s with
  | Some d => let x := Z.of_int d in if String.eqb (itoa x) s then Some x else None
  | None => None
  end.

Definition dquote : ascii := Eval cbv in ascii_of_nat 34.
Definition newline : ascii := Eval cbv in ascii_of_nat 10.

(** Splits at the first occurrence of a character. *)
Fixpoint cut (sep : ascii) (s : string) : string * option string :=
  match s with
  | EmptyString => (EmptyString, None)
  | String c r =>
      if Ascii.eqb c sep then (EmptyString, Some r)
      else let '(a, b) := cut sep r in (String c a, b)
  end.

(** [strings.Split(s, sep)] for a one-character separator. *)
Fixpoint split (sep : ascii) (s : string) : list string :=
  match s with
  | EmptyString => [EmptyString]
  | String c r =>
      if Ascii.eqb c sep then EmptyString :: split sep r
      else match split sep r with
           | x :: xs => String c x :: xs
           | [] => [String c EmptyString]
           end
  end.

Fixpoint join (sep : string) (l : list string) : string :=
  match l with
  | [] => EmptyString
  | [x] => x
  | x :: xs => x +:+ sep +:+ join sep xs
  end.

Fixpoint forallb (p : ascii -> bool) (s : string) : bool :=
  match s with
  | EmptyString => true
  | String c r => p c && forallb p r
  end.

Definition to_lower (c : ascii) : ascii :=
  let n := nat_of_ascii c in
  if (65 <=? n)%nat && (n <=? 90)%nat then ascii_of_nat (n + 32) else c.

(** [strings.EqualFold] on ASCII text. *)
Fixpoint equal_fold (a b : string) : bool :=
  match a, b with
  | EmptyString, EmptyString => true
  | String x a', String y b' => Ascii.eqb (to_lower x) (to_lower y) && equal_fold a' b'
  | _, _ => false
  end.

End text.

(** ** [time]: timestamps and their RFC 3339 text

    A [time.Time] is modelled by what its RFC 3339 rendering shows: the
    civil date and clock reading, the nanoseconds and the zone offset in
    minutes.  The monotonic clock reading and the identity of the
    [*Location] are not part of the value. *)

Module time.

Record Time := {
  Year : Z; Month : Z; Day : Z;
  Hour : Z; Minute : Z; Second : Z;
  Nanosecond : Z;
  Offset : Z  (* minutes east of UTC *)
}.

Definition isLeap (year : Z) : bool :=
  (year mod 4 =? 0) && (negb (year mod 100 =? 0) || (year mod 400 =? 0)).

Definition daysIn (month year : Z) : Z :=
  if month =? 2 then (if isLeap year then 29 else 28)
  else if (month =? 4) || (month =? 6) || (month =? 9) || (month =? 11) then 30
  else 31.

(** The ranges every [time.Time] value satisfies, whatever its year. *)
Definition valid (t : Time) : bool :=
  (1 <=? Month t) && (Month t <=? 12) &&
  (1 <=? Day t) && (Day t <=? daysIn (Month t) (Year t)) &&
  (0 <=? Hour t) && (Hour t <? 24) &&
  (0 <=? Minute t) && (Minute t <? 60) &&
  (0 <=? Second t) && (Second t <? 60) &&
  (0 <=? Nanosecond t) && (Nanosecond t <? 1000000000) &&
  (-1440 <? Offset t) && (Offset t <? 1440).

(** Drops trailing zero digits: [trim w x] is the shortest [(w', x')]
    with [x = x' * 10 ^ (w - w')]. *)
Fixpoint trim (w : nat) (x : Z) : nat * Z :=
  match w with
  | O => (O, x)
  | S w' => if x mod 10 =? 0 then trim w' (x / 10) else (w, x)
  end.

(** The [.999999999] element of a layout. *)
Definition formatNano (nsec : Z) (tail : string) : string :=
  if nsec =? 0 then tail
  else let '(w, x) := trim 9 nsec in String "." (text.pad_int w x tail).

(** The [Z07:00] element of a layout. *)
Definition formatZone (offset : Z) : string :=
  if offset =? 0 then "Z"
  else
    let a := Z.abs offset in
    String (if offset <? 0 then "-" else "+")
      (text.pad_int 2 (a / 60) (String ":" (text.pad_int 2 (a mod 60) EmptyString))).

(** [t.Format(time.RFC3339Nano)] for a year of four digits. *)
Definition FormatRFC3339Nano (t : Time) : string :=
  text.pad_int 4 (Year t) (String "-" (
  text.pad_int 2 (Month t) (String "-" (
  text.pad_int 2 (Day t) (String "T" (
  text.pad_int 2 (Hour t) (String ":" (
  text.pad_int 2 (Minute t) (String ":" (
  text.pad_int 2 (Second t) (
  formatNano (Nanosecond t) (formatZone (Offset t))))))))))))).

(** [Time.MarshalJSON]: the text between the quotes, or the error for a
    year that RFC 3339 cannot write. *)
Definition MarshalJSON (t : Time) : result string :=
  if (Year t <? 0) || (10000 <=? Year t)
  then inl "Time.MarshalJSON: year outside of range [0,9999]"
  else inr (FormatRFC3339Nano t).

Definition parseNano (s : string) : Z * string :=
  match s with
  | String "." r =>
      if text.starts_with_digit r then
        let '(v, used, rest) := text.span_digits 9 0 0 r in
        (v * 10 ^ Z.of_nat (9 - used), rest)
      else (0, s)
  | _ => (0, s)
  end.

Definition parseZone (s : string) : option Z :=
  match s with
  | String "Z" EmptyString => Some 0
  | String sign r =>
      if Ascii.eqb sign "+" || Ascii.eqb sign "-" then
        '(hh, r) ← text.take_digits 2 0 r;
        r ← text.expect ":" r;
        '(mm, r) ← text.take_digits 2 0 r;
        match r with
        | EmptyString =>
            if (hh <? 24) && (mm <? 60)
            then Some (if Ascii.eqb sign "-" then - (hh * 60 + mm) else hh * 60 + mm)
            else None
        | _ => None
        end
      else None
  | EmptyString => None
  end.

(** [time.Parse(time.RFC3339, s)]. *)
Definition ParseRFC3339 (s : string) : option Time :=
  '(year, s) ← text.take_digits 4 0 s;
  s ← text.expect "-" s;
  '(month, s) ← text.take_digits 2 0 s;
  s ← text.expect "-" s;
  '(day, s) ← text.take_digits 2 0 s;
  s ← text.expect "T" s;
  '(hour, s) ← text.take_digits 2 0 s;
  s ← text.expect ":" s;
  '(minute, s) ← text.take_digits 2 0 s;
  s ← text.expect ":" s;
  '(second, s) ← text.take_digits 2 0 s;
  let '(nsec, s) := parseNano s in
  offset ← parseZone s;
  let t := {| Year := year; Month := month; Day := day;
              Hour := hour; Minute := minute; Second := second;
              Nanosecond := nsec; Offset := offset |} in
  if valid t then Some t else None.

(** [Time.UnmarshalJSON] on the content of a JSON string. *)
Definition UnmarshalJSON (s : string) : result Time :=
  match ParseRFC3339 s with
  | Some t => inr t
  | None => inl ("cannot parse time as RFC 3339: " +:+ s)
  end.

End time.

(** ** [path/filepath] *)

Module filepath.

Definition IsAbs (path : string) : bool :=
  match path with String "/" _ => true | _ => false end.

(** One element of a path applied to the elements kept so far (most
    recent first), as [Clean] treats it. *)
Definition clean_step (rooted : bool) (kept : list string) (elem : string) : list string :=
  if String.eqb elem EmptyString || String.eqb elem "." then kept
  else if String.eqb elem ".." then
    match kept with
    | top :: below => if String.eqb top ".." then elem :: kept else below
    | [] => if rooted then [] else [elem]
    end
  else elem :: kept.

(** [filepath.Clean]: the shortest path equivalent to [path] by purely
    lexical processing. *)
Definition Clean (path : string) : string :=
  let rooted := IsAbs path in
  let kept := fold_left (clean_step rooted) (text.split "/" path) [] in
  let body := text.join "/" (rev kept) in
  if rooted then String "/" body
  else if String.eqb body EmptyString then "." else body.

(** [filepath.Join]: empty elements before the first non-empty one are
    ignored, the rest is joined with the separator and cleaned. *)
Fixpoint Join (elem : list string) : string :=
  match elem with
  | [] => EmptyString
  | e :: rest =>
      if String.eqb e EmptyString then Join rest
      else Clean (text.join "/" elem)
  end.

End filepath.

(** ** [os] and [io/ioutil]: a file system

    Nodes are addressed by the list of their path elements from the root.
    There are directories and regular files, no links and no permissions.
    [free] is the number of bytes the device can still store: a write
    that needs more is cut short and reports the error. *)

Module os.

Inductive Node :=
| Dir
| Regular (content : string).

Record FileSystem := {
  nodes : gmap (list string) Node;
  cwd : list string;
  free : nat
}.

Record FileInfo := { Name : string; IsDir : bool }.

(** An open file: the name it was opened with, the node it refers to
    and the write position. *)
Record File := { name : string; node : list string; offset : nat }.

Definition ENOENT : error := "no such file or directory".
Definition ENOTDIR : error := "not a directory".
Definition EISDIR : error := "is a directory".
Definition ENOSPC : error := "no space left on device".

Definition PathError (op path : string) (errno : error) : error :=
  op +:+ " " +:+ path +:+ ": " +:+ errno.

(** The root always exists. *)
Definition node_at (fs : FileSystem) (key : list string) : option Node :=
  match key with
  | [] => Some Dir
  | _ => nodes fs !! key
  end.

Definition with_nodes (fs : FileSystem) (m : gmap (list string) Node) : FileSystem :=
  {| nodes := m; cwd := cwd fs; free := free fs |}.

Definition elements (path : string) : list string :=
  filter (fun e => e ≠ EmptyString) (text.split "/" path).

Definition enter (cur : list string) (elem : string) : list string :=
  if String.eqb elem "." then cur
  else if String.eqb elem ".." then removelast cur
  else cur ++ [elem].

(** Name resolution: every element is entered from a directory that
    exists; the node reached need not exist. *)
Fixpoint walk (fs : FileSystem) (cur : list string) (elems : list string)
  : result (list string) :=
  match elems with
  | [] => inr cur
  | e :: rest =>
      match node_at fs cur with
      | Some Dir => walk fs (enter cur e) rest
      | Some (Regular _) => inl ENOTDIR
      | None => inl ENOENT
      end
  end.

Definition start_of (fs : FileSystem) (path : string) : list string :=
  if filepath.IsAbs path then [] else cwd fs.

Definition resolve (fs : FileSystem) (op path : string) : result (list string) :=
  if String.eqb path EmptyString then inl (PathError op path ENOENT)
  else match walk fs (start_of fs path) (elements path) with
       | inl errno => inl (PathError op path errno)
       | inr key => inr key
       end.

Definition Stat (fs : FileSystem) (path : string) : result Node :=
  match resolve fs "stat" path with
  | inl err => inl err
  | inr key =>
      match node_at fs key with
      | Some n => inr n
      | None => inl (PathError "stat" path ENOENT)
      end
  end.

(** [os.MkdirAll] creates every missing directory along the path and
    fails when an element of the path is a regular file. *)
Fixpoint mkdir_along (fs : FileSystem) (cur : list string) (elems : list string)
  : result FileSystem :=
  match elems with
  | [] => inr fs
  | e :: rest =>
      let next := enter cur e in
      match node_at fs next with
      | Some Dir => mkdir_along fs next rest
      | Some (Regular _) => inl ENOTDIR
      | None => mkdir_along (with_nodes fs (<[next := Dir]> (nodes fs))) next rest
      end
  end.

Definition MkdirAll (fs : FileSystem) (path : string) : result FileSystem :=
  if String.eqb path EmptyString then inl (PathError "mkdir" path ENOENT)
  else match mkdir_along fs (start_of fs path) (elements path) with
       | inl errno => inl (PathError "mkdir" path errno)
       | inr fs' => inr fs'
       end.

(** [os.Create]: opens the named file for writing, creating it when it
    does not exist and truncating it when it does. *)
Definition Create (fs : FileSystem) (path : string) : result (FileSystem * File) :=
  match resolve fs "open" path with
  | inl err => inl err
  | inr key =>
      let opened := {| name := path; node := key; offset := O |} in
      match node_at fs key with
      | Some Dir => inl (PathError "open" path EISDIR)
      | Some (Regular old) =>
          inr ({| nodes := <[key := Regular EmptyString]> (nodes fs);
                  cwd := cwd fs;
                  free := (free fs + String.length old)%nat |}, opened)
      | None =>
          inr (with_nodes fs (<[key := Regular EmptyString]> (nodes fs)), opened)
      end
  end.

Definition take (n : nat) (s : string) : string := substring 0 n s.
Definition drop (n : nat) (s : string) : string := substring n (String.length s - n) s.

(** [File.Write]: stores as many of the bytes as the device has room
    for, at the file's position; returns the file system, the moved
    position, the number of bytes written and the error of a short
    write. *)
Definition Write (fs : FileSystem) (f : File) (b : string)
  : FileSystem * File * nat * option error :=
  match nodes fs !! node f with
  | Some (Regular old) =>
      let size := String.length old in
      let grow := (offset f + String.length b - size)%nat in
      let n := (String.length b - (grow - free fs))%nat in
      let content := take (offset f) old +:+ take n b +:+ drop (offset f + n) old in
      ({| nodes := <[node f := Regular content]> (nodes fs);
          cwd := cwd fs;
          free := (free fs + size - String.length content)%nat |},
       {| name := name f; node := node f; offset := (offset f + n)%nat |},
       n,
       if (n <? String.length b)%nat then Some (PathError "write" (name f) ENOSPC)
       else None)
  | _ => (fs, f, O, Some (PathError "write" (name f) "bad file descriptor"))
  end.

(** [File.Close] has nothing to flush in this model. *)
Definition Close (fs : FileSystem) (f : File) : FileSystem := fs.

(** [ioutil.ReadFile]. *)
Definition ReadFile (fs : FileSystem) (filename : string) : result string :=
  match resolve fs "open" filename with
  | inl err => inl err
  | inr key =>
      match node_at fs key with
      | Some (Regular content) => inr content
      | Some Dir => inl (PathError "read" filename EISDIR)
      | None => inl (PathError "open" filename ENOENT)
      end
  end.

Definition is_dir (n : Node) : bool :=
  match n with Dir => true | Regular _ => false end.

(** The entry a node is in the directory [key], when it lies directly
    below it. *)
Definition entry_of (key : list string) (kn : list string * Node) : option FileInfo :=
  match last (fst kn) with
  | Some name =>
      if decide (fst kn = (key ++ [name])%list)
      then Some {| Name := name; IsDir := is_dir (snd kn) |}
      else None
  | None => None
  end.

(** The entries of the directory [key]. *)
Definition entries (fs : FileSystem) (key : list string) : list FileInfo :=
  omap (entry_of key) (map_to_list (nodes fs)).

Definition by_name (a b : FileInfo) : Prop := String.le (Name a) (Name b).

(** [ioutil.ReadDir]: the entries of a directory, sorted by file name. *)
Definition ReadDir (fs : FileSystem) (dirname : string) : result (list FileInfo) :=
  match resolve fs "open" dirname with
  | inl err => inl err
  | inr key =>
      match node_at fs key with
      | Some Dir => inr (merge_sort by_name (entries fs key))
      | Some (Regular _) => inl (PathError "readdirent" dirname ENOTDIR)
      | None => inl (PathError "open" dirname ENOENT)
      end
  end.

End os.

(** ** [encoding/json]

    Values are the ones a tombstone needs: scalars, and objects with
    scalar members.  A struct is encoded and decoded through its fields'
    tags, which the struct type provides as [Struct]. *)

Module json.

Inductive Value :=
| Null
| Number (z : Z)
| Str (s : string).

Definition Object := list (string * Value).

(** What a struct field can hold. *)
Inductive FieldValue :=
| PtrTime (p : option time.Time)
| PtrInt (p : option Z)
| GoString (s : string)
| Opaque.

(** A field of a struct type: its Go name and the [json] key of its tag. *)
Record StructField := { FieldName : string; Tag : string }.

Class Struct (T : Type) := {
  fields : list StructField;
  field_get : T -> string -> FieldValue;
  field_set : T -> string -> FieldValue -> T
}.

Definition is_exported (name : string) : bool :=
  match name with
  | String c _ => let n := nat_of_ascii c in (65 <=? n)%nat && (n <=? 90)%nat
  | EmptyString => false
  end.

(** The name given in a tag, before the first comma. *)
Definition tag_name (tag : string) : string := fst (text.cut "," tag).

Definition tag_options (tag : string) : list string :=
  match snd (text.cut "," tag) with
  | Some opts => text.split "," opts
  | None => []
  end.

Definition omitempty (f : StructField) : bool :=
  existsb (String.eqb "omitempty") (tag_options (Tag f)).

(** Unexported fields and fields tagged [-] take no part. *)
Definition visible (f : StructField) : bool :=
  is_exported (FieldName f) && negb (String.eqb (Tag f) "-").

Definition key_of (f : StructField) : string :=
  if String.eqb (tag_name (Tag f)) EmptyString then FieldName f else tag_name (Tag f).

Definition isEmptyValue (v : FieldValue) : bool :=
  match v with
  | PtrTime None | PtrInt None => true
  | GoString s => String.eqb s EmptyString
  | _ => false
  end.

Definition encode_value (v : FieldValue) : result Value :=
  match v with
  | PtrTime None | PtrInt None | Opaque => inr Null
  | PtrTime (Some t) =>
      match time.MarshalJSON t with
      | inl err => inl ("json: error calling MarshalJSON for type *time.Time: " +:+ err)
      | inr s => inr (Str s)
      end
  | PtrInt (Some z) => inr (Number z)
  | GoString s => inr (Str s)
  end.

Section Encode.
Context {T : Type} `{Struct T}.

Fixpoint encode_fields (t : T) (fs : list StructField) : result Object :=
  match fs with
  | [] => inr []
  | f :: rest =>
      let v := field_get t (FieldName f) in
      if negb (visible f) || (omitempty f && isEmptyValue v) then encode_fields t rest
      else
        match encode_value v with
        | inl err => inl err
        | inr j =>
            match encode_fields t rest with
            | inl err => inl err
            | inr members => inr ((key_of f, j) :: members)
            end
        end
  end.

Definition encode (t : T) : result Object := encode_fields t fields.
End Encode.

Definition hex (n : nat) : ascii :=
  ascii_of_nat (if (n <? 10)%nat then 48 + n else 87 + n).

(** One byte of a string, as the encoder writes it between quotes. *)
Definition escape (c : ascii) (tail : string) : string :=
  let n := nat_of_ascii c in
  if Ascii.eqb c text.dquote || Ascii.eqb c "\" then String "\" (String c tail)
  else if (n =? 10)%nat then String "\" (String "n" tail)
  else if (n =? 13)%nat then String "\" (String "r" tail)
  else if (n =? 9)%nat then String "\" (String "t" tail)
  else if (n <? 32)%nat || Ascii.eqb c "<" || Ascii.eqb c ">" || Ascii.eqb c "&"
  then String "\" (String "u" (String "0" (String "0"
         (String (hex (n / 16)) (String (hex (n mod 16)) tail)))))
  else String c tail.

Fixpoint quote_into (s : string) (tail : string) : string :=
  match s with
  | EmptyString => String text.dquote tail
  | String c r => escape c (quote_into r tail)
  end.

Definition quote (s : string) (tail : string) : string :=
  String text.dquote (quote_into s tail).

Definition value_text (v : Value) (tail : string) : string :=
  match v with
  | Null => "null" +:+ tail
  | Number z => text.itoa z +:+ tail
  | Str s => quote s tail
  end.

Fixpoint members_text (o : Object) (tail : string) : string :=
  match o with
  | [] => tail
  | [(k, v)] => quote k (String ":" (value_text v tail))
  | (k, v) :: rest => quote k (String ":" (value_text v (String "," (members_text rest tail))))
  end.

(** The compact text of an object. *)
Definition object_text (o : Object) : string :=
  String "{" (members_text o "}").

(** [json.Marshal] of a struct. *)
Definition Marshal {T : Type} `{Struct T} (t : T) : result string :=
  match encode t with
  | inl err => inl err
  | inr o => inr (object_text o)
  end.

Definition int_min : Z := - 2 ^ 63.
Definition int_max : Z := 2 ^ 63 - 1.

Definition decode_value (field : string) (cur : FieldValue) (v : Value) : result FieldValue :=
  match cur, v with
  | PtrTime _, Null => inr (PtrTime None)
  | PtrTime _, Str s =>
      match time.UnmarshalJSON s with
      | inl err => inl err
      | inr t => inr (PtrTime (Some t))
      end
  | PtrTime _, Number _ => inl "Time.UnmarshalJSON: input is not a JSON string"
  | PtrInt _, Null => inr (PtrInt None)
  | PtrInt _, Number z =>
      if (int_min <=? z) && (z <=? int_max) then inr (PtrInt (Some z))
      else inl ("json: cannot unmarshal number " +:+ text.itoa z +:+
                " into Go struct field " +:+ field +:+ " of type int")
  | PtrInt _, Str _ =>
      inl ("json: cannot unmarshal string into Go struct field " +:+ field +:+ " of type int")
  | GoString _, Str s => inr (GoString s)
  | GoString s, Null => inr (GoString s)
  | GoString _, Number _ =>
      inl ("json: cannot unmarshal number into Go struct field " +:+ field +:+ " of type string")
  | Opaque, _ => inr Opaque
  end.

(** The field a key addresses: an exact match of the key is preferred
    to a match that ignores case. *)
Definition find_field (fs : list StructField) (key : string) : option StructField :=
  let candidates := filter (fun f => visible f = true) fs in
  match find (fun f => String.eqb (key_of f) key) candidates with
  | Some f => Some f
  | None => find (fun f => text.equal_fold (key_of f) key) candidates
  end.

Section Decode.
Context {T : Type} `{Struct T}.

Fixpoint decode (o : Object) (t : T) : result T :=
  match o with
  | [] => inr t
  | (key, v) :: rest =>
      match find_field fields key with
      | None => decode rest t
      | Some f =>
          match decode_value (FieldName f) (field_get t (FieldName f)) v with
          | inl err => inl err
          | inr fv => decode rest (field_set t (FieldName f) fv)
          end
      end
  end.
End Decode.

End json.

(** ** [sigs.k8s.io/yaml]

    [Marshal] encodes through [encoding/json] and writes the object as a
    block mapping, one [key: value] line per member in key order, strings
    in double quotes.  The only strings this package writes are
    timestamps, which need no escapes.

    [YAMLToJSON] reads the documents that consist of such lines: a key,
    a colon and a scalar that is empty, [null], [~], a double-quoted
    string of printable ASCII without escapes, a decimal integer or a
    plain word.  Blank
    lines are skipped, the empty document is [null] and [{}] is the empty
    object; a key may not occur twice.  Any other text is reported as
    an error.  The library itself reads all of YAML: the model is meant
    to reject some documents that the library accepts, and to agree with
    it, up to the wording of errors, on what [Unmarshal] makes of the
    documents that the model accepts. *)

Module yaml.

Definition by_key (a b : string * json.Value) : Prop := String.le (fst a) (fst b).

Definition scalar_text (v : json.Value) : string :=
  match v with
  | json.Null => "null"
  | json.Number z => text.itoa z
  | json.Str s => String text.dquote (s +:+ String text.dquote EmptyString)
  end.

Fixpoint lines_text (o : json.Object) : string :=
  match o with
  | [] => EmptyString
  | (k, v) :: rest =>
      k +:+ ": " +:+ scalar_text v +:+ String text.newline (lines_text rest)
  end.

Definition JSONToYAML (o : json.Object) : string :=
  match o with
  | [] => "{}" +:+ String text.newline EmptyString
  | _ => lines_text (merge_sort by_key o)
  end.

Definition is_alnum (c : ascii) : bool :=
  let n := nat_of_ascii c in
  ((48 <=? n) && (n <=? 57) || (65 <=? n) && (n <=? 90) || (97 <=? n) && (n <=? 122))%nat.

Definition is_word_char (c : ascii) : bool :=
  is_alnum c || Ascii.eqb c "-" || Ascii.eqb c ":" || Ascii.eqb c "."
  || Ascii.eqb c "+" || Ascii.eqb c "_".

Definition is_key_char (c : ascii) : bool :=
  is_alnum c || Ascii.eqb c "-" || Ascii.eqb c "_".

Fixpoint ends_with (c : ascii) (s : string) : bool :=
  match s with
  | EmptyString => false
  | String c' EmptyString => Ascii.eqb c c'
  | String _ r => ends_with c r
  end.

(** Plain scalars: words that begin with a letter or a digit and do not
    end in a colon. *)
Definition is_word (s : string) : bool :=
  match s with
  | String c _ => is_alnum c && text.forallb is_word_char s && negb (ends_with ":" s)
  | EmptyString => false
  end.

Definition is_alpha (c : ascii) : bool :=
  let n := nat_of_ascii c in
  ((65 <=? n) && (n <=? 90) || (97 <=? n) && (n <=? 122))%nat.

(** Keys are plain words that begin with a letter and are not the
    [null] literal. *)
Definition is_key (s : string) : bool :=
  match s with
  | String c _ =>
      is_alpha c && text.forallb is_key_char s && negb (text.equal_fold s "null")
  | EmptyString => false
  end.

Fixpoint skip_spaces (s : string) : string :=
  match s with
  | String " " r => skip_spaces r
  | _ => s
  end.

(** Printable ASCII that stands for itself between double quotes. *)
Definition is_quotable (c : ascii) : bool :=
  let n := nat_of_ascii c in
  (32 <=? n)%nat && (n <=? 126)%nat
  && negb (Ascii.eqb c text.dquote) && negb (Ascii.eqb c "\").

(** The content of a double-quoted scalar, given the text after the
    opening quote. *)
Fixpoint quoted (s : string) : option string :=
  match s with
  | EmptyString => None
  | String c r =>
      if Ascii.eqb c text.dquote then
        match r with EmptyString => Some EmptyString | _ => None end
      else if is_quotable c then String c <$> quoted r
      else None
  end.

Definition parse_scalar (s : string) : option json.Value :=
  if String.eqb s EmptyString || String.eqb s "null" || String.eqb s "~" then Some json.Null
  else
    match s with
    | String c r =>
        if Ascii.eqb c text.dquote then json.Str <$> quoted r
        else
          match text.atoi s with
          | Some z => Some (json.Number z)
          | None => if is_word s then Some (json.Str s) else None
          end
    | EmptyString => None
    end.

Definition parse_line (line : string) : option (string * json.Value) :=
  match text.cut ":" line with
  | (key, Some rest) =>
      if is_key key then
        match rest with
        | EmptyString => Some (key, json.Null)
        | String " " r => pair key <$> parse_scalar (skip_spaces r)
        | _ => None
        end
      else None
  | (_, None) => None
  end.

Fixpoint parse_lines (n : nat) (lines : list string) : result json.Object :=
  match lines with
  | [] => inr []
  | line :: rest =>
      if String.eqb line EmptyString then parse_lines (S n) rest
      else
        match parse_line line with
        | None => inl ("yaml: line " +:+ text.itoa (Z.of_nat n) +:+ ": could not read a key and a scalar")
        | Some m =>
            match parse_lines (S n) rest with
            | inl err => inl err
            | inr o => inr (m :: o)
            end
        end
  end.

Definition distinct_keys (o : json.Object) : bool :=
  bool_decide (NoDup (map fst o)).

(** The object a document denotes, its members in key order; [None] is
    the [null] of an empty document. *)
Definition YAMLToJSON (y : string) : result (option json.Object) :=
  let lines := filter (fun l => l ≠ EmptyString) (text.split text.newline y) in
  if decide (lines = []) then inr None
  else if decide (lines = ["{}"]) then inr (Some [])
  else
    match parse_lines 1 (text.split text.newline y) with
    | inl err => inl err
    | inr o =>
        if distinct_keys o then inr (Some (merge_sort by_key o))
        else inl "yaml: mapping key already defined"
    end.

Definition Marshal {T : Type} `{json.Struct T} (t : T) : result string :=
  match json.encode t with
  | inl err => inl ("error marshaling into JSON: " +:+ err)
  | inr o => inr (JSONToYAML o)
  end.

Definition Unmarshal {T : Type} `{json.Struct T} (y : string) (t : T) : result T :=
  match YAMLToJSON y with
  | inl err => inl ("error converting YAML to JSON: " +:+ err)
  | inr None => inr t
  | inr (Some o) =>
      match json.decode o t with
      | inl err => inl ("error unmarshaling JSON: " +:+ err)
      | inr t' => inr t'
      end
  end.

End yaml.

(** ** [log]: the logger, as the lines it has written *)

Module log.

Definition Logger := list string.

Definition Printf (l : Logger) (line : string) : Logger := (l ++ [line])%list.

End log.

(** ** The state the package runs in: the file system, the clock that
    [time.Now] reads, and the logger. *)

Record World := {
  fs : os.FileSystem;
  now : time.Time;
  logger : log.Logger
}.

Definition with_fs (w : World) (fs' : os.FileSystem) : World :=
  {| fs := fs'; now := now w; logger := logger w |}.

Definition Printf (w : World) (line : string) : World :=
  {| fs := fs w; now := now w; logger := log.Printf (logger w) line |}.

(** ** [fsnotify]: events *)

Module fsnotify.

Definition Create : N := 1.
Definition Write : N := 2.
Definition Remove : N := 4.
Definition Rename : N := 8.
Definition Chmod : N := 16.

Record Event := { Name : string; Op : N }.

(** A watcher: the notifications and errors it holds for its reader,
    oldest first, the paths it is subscribed to, and whether it has
    been closed (its channels are then closed too). *)
Record Watcher := {
  Events : list Event;
  Errors : list error;
  watches : list string;
  closed : bool
}.

Definition NewWatcher : Watcher :=
  {| Events := []; Errors := []; watches := []; closed := false |}.

(** [Watcher.Add]: subscribes to a path that exists. *)
Definition Add (files : os.FileSystem) (w : Watcher) (name : string) : result Watcher :=
  if closed w then inl "inotify instance already closed"
  else
    match os.Stat files name with
    | inl err => inl err
    | inr _ =>
        inr {| Events := Events w; Errors := Errors w;
               watches := (watches w ++ [filepath.Clean name])%list;
               closed := false |}
    end.

Definition Close (w : Watcher) : Watcher :=
  {| Events := Events w; Errors := Errors w; watches := []; closed := true |}.

Definition has (op flag : N) : bool := N.eqb (N.land op flag) flag.

End fsnotify.

(** ** Package [tombstone] *)

Module tombstone.

(** [type Tombstone struct].  The [fileLock] mutex guards [Write]
    against other goroutines; a call is modelled as one step, in which
    the mutex is taken and released, so the record does not carry it. *)
Record Tombstone := {
  Born : option time.Time;
  Died : option time.Time;
  ExitCode : option Z;
  Graveyard : string;
  Name : string
}.

Definition get (t : Tombstone) (field : string) : json.FieldValue :=
  if String.eqb field "Born" then json.PtrTime (Born t)
  else if String.eqb field "Died" then json.PtrTime (Died t)
  else if String.eqb field "ExitCode" then json.PtrInt (ExitCode t)
  else if String.eqb field "Graveyard" then json.GoString (Graveyard t)
  else if String.eqb field "Name" then json.GoString (Name t)
  else json.Opaque.

Definition set (t : Tombstone) (field : string) (v : json.FieldValue) : Tombstone :=
  match v with
  | json.PtrTime p =>
      if String.eqb field "Born" then
        {| Born := p; Died := Died t; ExitCode := ExitCode t;
           Graveyard := Graveyard t; Name := Name t |}
      else if String.eqb field "Died" then
        {| Born := Born t; Died := p; ExitCode := ExitCode t;
           Graveyard := Graveyard t; Name := Name t |}
      else t
  | json.PtrInt p =>
      if String.eqb field "ExitCode" then
        {| Born := Born t; Died := Died t; ExitCode := p;
           Graveyard := Graveyard t; Name := Name t |}
      else t
  | json.GoString s =>
      if String.eqb field "Graveyard" then
        {| Born := Born t; Died := Died t; ExitCode := ExitCode t;
           Graveyard := s; Name := Name t |}
      else if String.eqb field "Name" then
        {| Born := Born t; Died := Died t; ExitCode := ExitCode t;
           Graveyard := Graveyard t; Name := s |}
      else t
  | json.Opaque => t
  end.

(** The fields of the struct with the [json] keys of their tags. *)
#[export] Instance Tombstone_struct : json.Struct Tombstone := {|
  json.fields := [
    {| json.FieldName := "Born";      json.Tag := ",omitempty" |};
    {| json.FieldName := "Died";      json.Tag := ",omitempty" |};
    {| json.FieldName := "ExitCode";  json.Tag := ",omitempty" |};
    {| json.FieldName := "Graveyard"; json.Tag := "-" |};
    {| json.FieldName := "Name";      json.Tag := "-" |};
    {| json.FieldName := "fileLock";  json.Tag := EmptyString |} ];
  json.field_get := get;
  json.field_set := set
|}.

(** The values the Go types of the fields can hold: timestamps within
    their ranges and an exit code that fits an [int]. *)
Definition valid_time (p : option time.Time) : bool :=
  match p with Some t => time.valid t | None => true end.

Definition valid_int (p : option Z) : bool :=
  match p with Some z => (json.int_min <=? z) && (z <=? json.int_max) | None => true end.

Definition well_formed (t : Tombstone) : bool :=
  valid_time (Born t) && valid_time (Died t) && valid_int (ExitCode t).

Definition Path (t : Tombstone) : string :=
  filepath.Join [Graveyard t; Name t].

(** [Write]: a tombstone file, truncating before writing.  The result
    of [file.Write] is dropped, as in the source. *)
Definition Write (t : Tombstone) (w : World) : World * option error :=
  match os.MkdirAll (fs w) (Graveyard t) with
  | inl err => (w, Some err)
  | inr fs1 =>
      match os.Create fs1 (Path t) with
      | inl err =>
          (with_fs w fs1, Some ("failed to create tombstone file: " +:+ err))
      | inr (fs2, file) =>
          match yaml.Marshal t with
          | inl err =>
              (with_fs w (os.Close fs2 file),
               Some ("failed to marshal tombstone yaml: " +:+ err))
          | inr pretty =>
              let '(fs3, file', _, _) := os.Write fs2 file pretty in
              (with_fs w (os.Close fs3 file'), None)
          end
      end
  end.

Definition set_Born (t : Tombstone) (born : time.Time) : Tombstone :=
  {| Born := Some born; Died := Died t; ExitCode := ExitCode t;
     Graveyard := Graveyard t; Name := Name t |}.

Definition set_Died (t : Tombstone) (died : time.Time) : Tombstone :=
  {| Born := Born t; Died := Some died; ExitCode := ExitCode t;
     Graveyard := Graveyard t; Name := Name t |}.

Definition set_ExitCode (t : Tombstone) (code : Z) : Tombstone :=
  {| Born := Born t; Died := Died t; ExitCode := Some code;
     Graveyard := Graveyard t; Name := Name t |}.

(** [RecordBirth]: the receiver is a pointer, so the record as the call
    leaves it is part of the result. *)
Definition RecordBirth (t : Tombstone) (w : World) : Tombstone * World * option error :=
  let born := now w in
  let t := set_Born t born in
  let w := Printf w ("Creating tombstone: " +:+ Path t +:+ String text.newline EmptyString) in
  match Write t w with
  | (w, Some err) => (t, w, Some ("failed to create tombstone: " +:+ err))
  | (w, None) => (t, w, None)
  end.

Definition RecordDeath (t : Tombstone) (exitCode : Z) (w : World)
  : Tombstone * World * option error :=
  let code := exitCode in
  let died := now w in
  let t := set_Died t died in
  let t := set_ExitCode t code in
  let w := Printf w ("Updating tombstone: " +:+ Path t +:+ String text.newline EmptyString) in
  match Write t w with
  | (w, Some err) => (t, w, Some ("failed to update tombstone: " +:+ err))
  | (w, None) => (t, w, None)
  end.


(** [Read]: a tombstone from a graveyard. *)
Definition Read (w : World) (graveyard name : string) : result Tombstone :=
  let t := {| Born := None; Died := None; ExitCode := None;
              Graveyard := graveyard; Name := name |} in
  match os.ReadFile (fs w) (Path t) with
  | inl err => inl ("failed to read tombstone file: " +:+ err)
  | inr bytes =>
      match yaml.Unmarshal bytes t with
      | inl err => inl ("failed to unmarshal tombstone yaml: " +:+ err)
      | inr t => inr t
      end
  end.

(** [type EventHandler func(context.Context, fsnotify.Event) error].
    A handler may read and change the world and keeps a state of its
    own, of type [H]. *)
Definition EventHandler (H : Type) : Type :=
  fsnotify.Event -> World -> H -> World * H * option error.

Definition log_if (cond : bool) (line : string) (w : World) : World :=
  if cond then Printf w line else w.

(** [LoggingEventHandler]: an example handler that logs events. *)
Definition LoggingEventHandler : EventHandler unit :=
  fun event w h =>
    let nl := String text.newline EmptyString in
    let name := fsnotify.Name event in
    let op := fsnotify.Op event in
    let w := log_if (fsnotify.has op fsnotify.Create)
               ("Tombstone Watch: file created: " +:+ name +:+ nl) w in
    let w := log_if (fsnotify.has op fsnotify.Remove)
               ("Tombstone Watch: file removed: " +:+ name +:+ nl) w in
    let w := log_if (fsnotify.has op fsnotify.Write)
               ("Tombstone Watch: file modified: " +:+ name +:+ nl) w in
    let w := log_if (fsnotify.has op fsnotify.Rename)
               ("Tombstone Watch: file renamed: " +:+ name +:+ nl) w in
    let w := log_if (fsnotify.has op fsnotify.Chmod)
               ("Tombstone Watch: file chmoded: " +:+ name +:+ nl) w in
    (w, h, None).

(** *** [Watch]

    [Watch] starts a goroutine and carries on beside it, so a call is
    modelled as a machine with two threads.  The caller's thread runs
    the body of [Watch] statement by statement; the worker runs the
    [select] loop.  The environment cancels the context, changes the
    file system, and makes the watcher report notifications and
    errors.  A schedule is a list of such steps. *)

Inductive Thread := CallerThread | WorkerThread.

(** Where the caller's thread stands in the body of [Watch]. *)
Inductive Caller :=
| AtNewWatcher
| AtGo
| AtAdd
| AtReadDir
| AtRange (files : list os.FileInfo)
| Returned (err : option error).

Inductive Worker := NotStarted | Selecting | Exited.

(** What an observer of a run sees, in order. *)
Inductive Obs :=
| Spawned
| Subscribed
| Listed (at_listing : os.FileSystem) (files : list os.FileInfo)
| Handled (who : Thread) (event : fsnotify.Event) (err : option error)
| Returns (err : option error)
| WorkerExit.

Record State (H : Type) := {
  world : World;
  handler_state : H;
  ctx_done : bool;
  instances : nat;
  watcher : fsnotify.Watcher;
  caller : Caller;
  worker : Worker;
  history : list Obs
}.
Arguments world {H}.
Arguments handler_state {H}.
Arguments ctx_done {H}.
Arguments instances {H}.
Arguments watcher {H}.
Arguments caller {H}.
Arguments worker {H}.
Arguments history {H}.

(** The case of the [select] a worker step takes. *)
Inductive Choice := SelDone | SelEvent | SelError.

Inductive Label :=
| CallerStep
| WorkerStep (c : Choice)
| Cancel
| Notify (event : fsnotify.Event)
| NotifyError (err : error)
| ChannelsClosed
| Outside (change : os.FileSystem -> os.FileSystem)
| Tick (t : time.Time).

Section Watch.
Context {H : Type}.
Variable graveyard : string.
Variable eventHandler : EventHandler H.

Definition ret (s : State H) (w : World) (err : option error) : State H :=
  {| world := w; handler_state := handler_state s; ctx_done := ctx_done s;
     instances := instances s; watcher := watcher s;
     caller := Returned err; worker := worker s;
     history := (history s ++ [Returns err])%list |}.

Definition bootstrap_event (f : os.FileInfo) : fsnotify.Event :=
  {| fsnotify.Name := filepath.Join [graveyard; os.Name f];
     fsnotify.Op := fsnotify.Create |}.

(** One statement of the body of [Watch]. *)
Definition caller_step (s : State H) : State H :=
  match caller s with
  | AtNewWatcher =>
      match instances s with
      | O => ret s (world s) (Some ("failed to create watcher: " +:+ "too many open files"))
      | S n =>
          {| world := world s; handler_state := handler_state s; ctx_done := ctx_done s;
             instances := n; watcher := fsnotify.NewWatcher;
             caller := AtGo; worker := worker s; history := history s |}
      end
  | AtGo =>
      {| world := world s; handler_state := handler_state s; ctx_done := ctx_done s;
         instances := instances s; watcher := watcher s;
         caller := AtAdd; worker := Selecting;
         history := (history s ++ [Spawned])%list |}
  | AtAdd =>
      match fsnotify.Add (fs (world s)) (watcher s) graveyard with
      | inl err => ret s (world s) (Some ("failed to add watcher: " +:+ err))
      | inr wt =>
          {| world := world s; handler_state := handler_state s; ctx_done := ctx_done s;
             instances := instances s; watcher := wt;
             caller := AtReadDir; worker := worker s;
             history := (history s ++ [Subscribed])%list |}
      end
  | AtReadDir =>
      match os.ReadDir (fs (world s)) graveyard with
      | inl err => ret s (world s) (Some ("failed to read graveyard dir: " +:+ err))
      | inr files =>
          {| world := world s; handler_state := handler_state s; ctx_done := ctx_done s;
             instances := instances s; watcher := watcher s;
             caller := AtRange files; worker := worker s;
             history := (history s ++ [Listed (fs (world s)) files])%list |}
      end
  | AtRange [] => ret s (world s) None
  | AtRange (f :: rest) =>
      let event := bootstrap_event f in
      let '(w, h, err) := eventHandler event (world s) (handler_state s) in
      let s' := {| world := w; handler_state := h; ctx_done := ctx_done s;
                   instances := instances s; watcher := watcher s;
                   caller := AtRange rest; worker := worker s;
                   history := (history s ++ [Handled CallerThread event err])%list |} in
      match err with
      | Some e => ret s' w (Some ("failed handling existing tombstone: " +:+ e))
      | None => s'
      end
  | Returned _ => s
  end.

(** The worker leaves its loop: the deferred [watcher.Close] runs. *)
Definition worker_return (s : State H) (w : World) : State H :=
  {| world := w; handler_state := handler_state s; ctx_done := ctx_done s;
     instances := instances s; watcher := fsnotify.Close (watcher s);
     caller := caller s; worker := Exited;
     history := (history s ++ [WorkerExit])%list |}.

Definition with_queues (s : State H) (w : World) (h : H)
    (events : list fsnotify.Event) (errors : list error) (seen : list Obs) : State H :=
  {| world := w; handler_state := h; ctx_done := ctx_done s;
     instances := instances s;
     watcher := {| fsnotify.Events := events; fsnotify.Errors := errors;
                   fsnotify.watches := fsnotify.watches (watcher s);
                   fsnotify.closed := fsnotify.closed (watcher s) |};
     caller := caller s; worker := worker s;
     history := (history s ++ seen)%list |}.

(** One round of the worker's [select], taking the case [c] when it
    is ready; a case that is not ready leaves the worker waiting. *)
Definition worker_step (c : Choice) (s : State H) : State H :=
  let nl := String text.newline EmptyString in
  let wt := watcher s in
  match worker s with
  | Selecting =>
      match c with
      | SelDone =>
          if ctx_done s then
            worker_return s
              (Printf (world s) ("Tombstone Watch(" +:+ graveyard +:+ "): done" +:+ nl))
          else s
      | SelEvent =>
          match fsnotify.Events wt with
          | event :: events =>
              let '(w, h, err) := eventHandler event (world s) (handler_state s) in
              let w :=
                match err with
                | Some e =>
                    Printf w ("Tombstone Watch(" +:+ graveyard +:+
                              "): error handling file system event: " +:+ e +:+ nl)
                | None => w
                end in
              with_queues s w h events (fsnotify.Errors wt) [Handled WorkerThread event err]
          | [] => if fsnotify.closed wt then worker_return s (world s) else s
          end
      | SelError =>
          match fsnotify.Errors wt with
          | err :: errors =>
              with_queues s
                (Printf (world s) ("Tombstone Watch(" +:+ graveyard +:+
                                   "): error from fsnotify: " +:+ err +:+ nl))
                (handler_state s) (fsnotify.Events wt) errors []
          | [] => if fsnotify.closed wt then worker_return s (world s) else s
          end
      end
  | _ => s
  end.

Definition subscribed (s : State H) : bool :=
  negb (fsnotify.closed (watcher s)) &&
  match fsnotify.watches (watcher s) with [] => false | _ => true end.

(** A step of the environment. *)
Definition env_step (l : Label) (s : State H) : State H :=
  match l with
  | Cancel =>
      {| world := world s; handler_state := handler_state s; ctx_done := true;
         instances := instances s; watcher := watcher s;
         caller := caller s; worker := worker s; history := history s |}
  | Notify event =>
      if subscribed s then
        with_queues s (world s) (handler_state s)
          (fsnotify.Events (watcher s) ++ [event])%list (fsnotify.Errors (watcher s)) []
      else s
  | NotifyError err =>
      if subscribed s then
        with_queues s (world s) (handler_state s)
          (fsnotify.Events (watcher s)) (fsnotify.Errors (watcher s) ++ [err])%list []
      else s
  | ChannelsClosed =>
      {| world := world s; handler_state := handler_state s; ctx_done := ctx_done s;
         instances := instances s; watcher := fsnotify.Close (watcher s);
         caller := caller s; worker := worker s; history := history s |}
  | Outside change =>
      {| world := with_fs (world s) (change (fs (world s)));
         handler_state := handler_state s; ctx_done := ctx_done s;
         instances := instances s; watcher := watcher s;
         caller := caller s; worker := worker s; history := history s |}
  | Tick t =>
      {| world := {| fs := fs (world s); now := t; logger := logger (world s) |};
         handler_state := handler_state s; ctx_done := ctx_done s;
         instances := instances s; watcher := watcher s;
         caller := caller s; worker := worker s; history := history s |}
  | _ => s
  end.

Definition step (l : Label) (s : State H) : State H :=
  match l with
  | CallerStep => caller_step s
  | WorkerStep c => worker_step c s
  | _ => env_step l s
  end.

Definition run (schedule : list Label) (s : State H) : State H :=
  fold_left (fun s l => step l s) schedule s.

(** The state in which [Watch] is called. *)
Definition call (w : World) (h : H) (done : bool) (free_instances : nat) : State H :=
  {| world := w; handler_state := h; ctx_done := done;
     instances := free_instances; watcher := fsnotify.NewWatcher;
     caller := AtNewWatcher; worker := NotStarted; history := [] |}.

End Watch.

(** The handler invocation an observation records, when it is one of
    the given thread. *)
Definition call_by (who : Thread) (o : Obs) : option (fsnotify.Event * option error) :=
  match o, who with
  | Handled CallerThread e r, CallerThread => Some (e, r)
  | Handled WorkerThread e r, WorkerThread => Some (e, r)
  | _, _ => None
  end.

(** The handler invocations of one thread, in order. *)
Definition calls_of (who : Thread) (h : list Obs) : list (fsnotify.Event * option error) :=
  omap (call_by who) h.

End tombstone.

(** ** Notions used in the statements *)

Import tombstone.

(** A record that has only its identity, as [Read] starts from and as a
    caller builds before [RecordBirth]. *)
Definition unborn (graveyard name : string) : Tombstone :=
  {| Born := None; Died := None; ExitCode := None;
     Graveyard := graveyard; Name := name |}.

(** The error of the [file.Write] call that [Write] makes, when [Write]
    gets that far: the error that [Write] drops. *)
Definition dropped_error (t : Tombstone) (w : World) : option error :=
  match os.MkdirAll (fs w) (Graveyard t) with
  | inl _ => None
  | inr fs1 =>
      match os.Create fs1 (Path t) with
      | inl _ => None
      | inr (fs2, file) =>
          match yaml.Marshal t with
          | inl _ => None
          | inr pretty => snd (os.Write fs2 file pretty)
          end
      end
  end.

Fixpoint has_prefix (p s : string) : bool :=
  match p, s with
  | EmptyString, _ => true
  | String a p', String b s' => Ascii.eqb a b && has_prefix p' s'
  | String _ _, EmptyString => false
  end.

(** The two ways [Read] fails, as a caller tells them apart by the
    message. *)
Inductive ReadFailure := FileUnreadable | ContentMalformed.

Definition classify (err : error) : option ReadFailure :=
  if has_prefix "failed to read tombstone file: " err then Some FileUnreadable
  else if has_prefix "failed to unmarshal tombstone yaml: " err then Some ContentMalformed
  else None.

(** The keys of a payload: what stands before the first colon of each
    line that has one. *)
Definition written_keys (payload : string) : list string :=
  omap (fun line => match text.cut ":" line with
                    | (key, Some _) => Some key
                    | (_, None) => None
                    end)
       (text.split text.newline payload).

Definition present {A : Type} (key : string) (field : option A) : list string :=
  match field with Some _ => [key] | None => [] end.

Definition with_identity (t : Tombstone) (graveyard name : string) : Tombstone :=
  {| Born := Born t; Died := Died t;
     ExitCode := ExitCode t;
     Graveyard := graveyard; Name := name |}.

(** Characters of a timestamp's text. *)
Definition time_char (c : ascii) : bool :=
  text.is_digit c || Ascii.eqb c "-" || Ascii.eqb c "T" || Ascii.eqb c ":"
  || Ascii.eqb c "." || Ascii.eqb c "Z" || Ascii.eqb c "+".

(** Characters that may stand between double quotes as they are. *)
Definition unescaped (c : ascii) : bool := yaml.is_quotable c.

Definition not_newline (c : ascii) : bool := negb (Ascii.eqb c text.newline).

Definition sign_or_digit (c : ascii) : bool := text.is_digit c || Ascii.eqb c "-".

(** The scalars the package writes: integers and timestamps. *)
Definition plain_value (v : json.Value) : Prop :=
  match v with
  | json.Null => False
  | json.Number _ => True
  | json.Str s => text.forallb unescaped s = true
  end.

Definition good_member (m : string * json.Value) : Prop :=
  yaml.is_key (fst m) = true /\ plain_value (snd m).

Definition line_of (m : string * json.Value) : string :=
  fst m +:+ ": " +:+ yaml.scalar_text (snd m).

(** The member a timestamp field contributes to the encoding. *)
Definition time_member (key : string) (p : option time.Time) : result json.Object :=
  match p with
  | None => inr []
  | Some t =>
      match time.MarshalJSON t with
      | inl err => inl ("json: error calling MarshalJSON for type *time.Time: " +:+ err)
      | inr s => inr [(key, json.Str s)]
      end
  end.

Definition int_member (key : string) (p : option Z) : json.Object :=
  match p with
  | None => []
  | Some z => [(key, json.Number z)]
  end.

(** The file system with a regular file stored at a node. *)
Definition store (files : os.FileSystem) (key : list string) (content : string) (room : nat)
  : os.FileSystem :=
  {| os.nodes := <[key := os.Regular content]> (os.nodes files);
     os.cwd := os.cwd files; os.free := room |}.





(** *** Sample data *)

Definition noon : time.Time :=
  {| time.Year := 2020; time.Month := 4; time.Day := 20;
     time.Hour := 12; time.Minute := 0; time.Second := 0;
     time.Nanosecond := 500000000; time.Offset := 0 |}.

Definition later : time.Time :=
  {| time.Year := 2020; time.Month := 4; time.Day := 20;
     time.Hour := 12; time.Minute := 0; time.Second := 5;
     time.Nanosecond := 0; time.Offset := 120 |}.

(** A device with [room] free bytes that holds the directories [/g]
    and [/g/sub] and nothing else. *)
Definition disk (room : nat) : os.FileSystem :=
  {| os.nodes := {[ ["g"] := os.Dir; ["g"; "sub"] := os.Dir ]};
     os.cwd := [];
     os.free := room |}.

Definition world_at (files : os.FileSystem) (t : time.Time) : World :=
  {| fs := files; now := t; logger := [] |}.

Definition born_at_noon : Tombstone :=
  {| Born := Some noon; Died := None; ExitCode := None;
     Graveyard := "/g"; Name := "app" |}.

(** *** Runs of [Watch] *)

(** The observations the caller's thread makes. *)
Definition by_caller (o : Obs) : bool :=
  match o with
  | Handled WorkerThread _ _ | WorkerExit => false
  | _ => true
  end.

Definition caller_view (h : list Obs) : list Obs := List.filter by_caller h.

(** A bootstrap event that the handler accepted. *)
Definition delivered (graveyard : string) (f : os.FileInfo) : Obs :=
  Handled CallerThread (bootstrap_event graveyard f) None.

(** What the caller's thread has observed when it stands at a given
    point of the body of [Watch]. *)
Inductive caller_trace (graveyard : string) : Caller -> list Obs -> Prop :=
| at_new_watcher : caller_trace graveyard AtNewWatcher []
| new_watcher_failed err :
    caller_trace graveyard (Returned (Some err)) [Returns (Some err)]
| at_go : caller_trace graveyard AtGo []
| at_add : caller_trace graveyard AtAdd [Spawned]
| add_failed err :
    caller_trace graveyard (Returned (Some err)) [Spawned; Returns (Some err)]
| at_read_dir : caller_trace graveyard AtReadDir [Spawned; Subscribed]
| read_dir_failed err :
    caller_trace graveyard (Returned (Some err)) [Spawned; Subscribed; Returns (Some err)]
| at_range snapshot done rest :
    os.ReadDir snapshot graveyard = inr (done ++ rest)%list ->
    caller_trace graveyard (AtRange rest)
      (Spawned :: Subscribed :: Listed snapshot (done ++ rest)
       :: map (delivered graveyard) done)%list
| handler_failed snapshot done f rest e :
    os.ReadDir snapshot graveyard = inr (done ++ f :: rest)%list ->
    caller_trace graveyard
      (Returned (Some ("failed handling existing tombstone: " +:+ e)))
      (Spawned :: Subscribed :: Listed snapshot (done ++ f :: rest)
       :: (map (delivered graveyard) done ++
           [Handled CallerThread (bootstrap_event graveyard f) (Some e)]) ++
          [Returns (Some ("failed handling existing tombstone: " +:+ e))])%list
| bootstrap_done snapshot files :
    os.ReadDir snapshot graveyard = inr files ->
    caller_trace graveyard (Returned None)
      (Spawned :: Subscribed :: Listed snapshot files
       :: map (delivered graveyard) files ++ [Returns None])%list.


(** A graveyard [/g] that holds the tombstones [a] and [b]. *)
Definition two_tombstones : os.FileSystem :=
  {| os.nodes := {[ ["g"] := os.Dir;
                    ["g"; "a"] := os.Regular EmptyString;
                    ["g"; "b"] := os.Regular EmptyString ]};
     os.cwd := [];
     os.free := 1000 |}.

(** Another process creates a file. *)
Definition creates (name : string) (files : os.FileSystem) : os.FileSystem :=
  match os.Create files name with
  | inr (files', _) => files'
  | inl _ => files
  end.

Definition created (name : string) : fsnotify.Event :=
  {| fsnotify.Name := name; fsnotify.Op := fsnotify.Create |}.

(** A handler that fails on every event. *)
Definition failing : EventHandler unit :=
  fun _ w h => (w, h, Some "boom").



Definition tombstone_file (name : string) : os.FileInfo :=
  {| os.Name := name; os.IsDir := false |}.

(** [Watch] is called on [/g] while it holds [a] and [b]. *)
Definition watch_two : State unit :=
  call (world_at two_tombstones noon) tt false 1.




(** A tombstone whose graveyard lies below a regular file. *)
Definition misplaced : Tombstone :=
  {| Born := None; Died := None; ExitCode := None;
     Graveyard := "/g/a/x"; Name := "app" |}.


(** A graveyard whose tombstone [app] holds a word where the exit code
    should be. *)
Definition garbled : os.FileSystem :=
  {| os.nodes := {[ ["g"] := os.Dir;
                    ["g"; "app"] := os.Regular "ExitCode: soon" ]};
     os.cwd := [];
     os.free := 1000 |}.

(** *** Notions used in the further properties *)

(** The operations [LoggingEventHandler] tests for, in the order in
    which it tests them, each with the word it logs. *)
Definition logged_ops : list (N * string) :=
  [(fsnotify.Create, "created"); (fsnotify.Remove, "removed");
   (fsnotify.Write, "modified"); (fsnotify.Rename, "renamed");
   (fsnotify.Chmod, "chmoded")].

(** The lines [LoggingEventHandler] writes for an event. *)
Definition logged_lines (event : fsnotify.Event) : list string :=
  map (fun p => "Tombstone Watch: file " +:+ snd p +:+ ": " +:+ fsnotify.Name event
                +:+ String text.newline EmptyString)
      (List.filter (fun p => fsnotify.has (fsnotify.Op event) (fst p)) logged_ops).

(** The notifications the watcher reports in a schedule, in order. *)
Definition notified (schedule : list Label) : list fsnotify.Event :=
  omap (fun l => match l with Notify event => Some event | _ => None end) schedule.

(** The notifications the worker has handed to the handler, followed by
    those it still has pending. *)
Definition taken_up {H : Type} (s : State H) : list fsnotify.Event :=
  (map fst (calls_of WorkerThread (history s)) ++ fsnotify.Events (watcher s))%list.

(** The line the worker logs for an error that the watcher reports. *)
Definition watcher_error_line (graveyard : string) (err : error) : string :=
  "Tombstone Watch(" +:+ graveyard +:+ "): error from fsnotify: " +:+ err
  +:+ String text.newline EmptyString.

(** The line the worker logs when it finds the context cancelled. *)
Definition done_line (graveyard : string) : string :=
  "Tombstone Watch(" +:+ graveyard +:+ "): done" +:+ String text.newline EmptyString.

(** The statements of [Watch] that come before the [go] statement has
    run. *)
Definition before_spawn (pc : Caller) : bool :=
  match pc with AtNewWatcher | AtGo => true | _ => false end.

(** The ways [Watch] fails: no watcher could be had, the graveyard could
    not be subscribed to, it could not be listed, or the handler failed
    on a bootstrap event. *)
Inductive WatchFailure :=
| NoWatcher (e : error)
| NotSubscribed (e : error)
| NotListed (e : error)
| HandlerFailed (event : fsnotify.Event) (e : error).

Definition failure_message (f : WatchFailure) : error :=
  match f with
  | NoWatcher e => "failed to create watcher: " +:+ e
  | NotSubscribed e => "failed to add watcher: " +:+ e
  | NotListed e => "failed to read graveyard dir: " +:+ e
  | HandlerFailed _ e => "failed handling existing tombstone: " +:+ e
  end.

(** What has happened by the time [Watch] returns a failure. *)
Definition failure_trace {H : Type} (f : WatchFailure) (s : State H) : Prop :=
  match f with
  | NoWatcher e =>
      worker s = NotStarted /\ history s = [Returns (Some (failure_message f))]
  | NotSubscribed _ | NotListed _ =>
      In Spawned (history s) /\ calls_of CallerThread (history s) = []
  | HandlerFailed event e =>
      In Spawned (history s) /\
      last (calls_of CallerThread (history s)) = Some (event, Some e)
  end.

(** What holds at each statement of [Watch]. *)
Definition watch_progress {H : Type} (s : State H) : Prop :=
  match caller s with
  | AtNewWatcher | AtGo => worker s = NotStarted /\ history s = []
  | AtAdd | AtReadDir => In Spawned (history s) /\ calls_of CallerThread (history s) = []
  | AtRange _ => In Spawned (history s)
  | Returned None => True
  | Returned (Some err) => exists f, err = failure_message f /\ failure_trace f s
  end.

(** The worker is running undisturbed: the context is not cancelled, the
    watcher is open, and the worker is in its loop once it was started. *)
Definition undisturbed {H : Type} (s : State H) : Prop :=
  ctx_done s = false /\ fsnotify.closed (watcher s) = false /\
  worker s <> Exited /\ (In Spawned (history s) -> worker s = Selecting).

(** The number of steps the caller's thread takes in a schedule. *)
Definition caller_steps (schedule : list Label) : nat :=
  length (List.filter (fun l => match l with CallerStep => true | _ => false end) schedule).

(** The steps the caller's thread has yet to take in the bootstrap loop. *)
Definition bootstrap_left (pc : Caller) : nat :=
  match pc with
  | AtRange files => S (length files)
  | _ => O
  end.

(** A handler that accepts every event and changes nothing. *)
Definition accepting : EventHandler unit :=
  fun _ w h => (w, h, None).

(** The watcher has reported two errors to a worker that waits. *)
Definition two_errors : State unit :=
  run "/g" accepting
    [CallerStep; CallerStep; CallerStep; NotifyError "overflow"; NotifyError "short read"]
    watch_two.

(** A graveyard [/g] that is a regular file. *)
Definition no_graveyard : os.FileSystem :=
  {| os.nodes := {[ ["g"] := os.Regular EmptyString ]};
     os.cwd := [];
     os.free := 1000 |}.

(** A tombstone file [/g/app] that holds a birth and a death. *)
Definition buried : os.FileSystem :=
  {| os.nodes := {[ ["g"] := os.Dir;
                    ["g"; "app"] := os.Regular "Born: 2020-04-20T12:00:00Z" ]};
     os.cwd := [];
     os.free := 1000 |}.




(** An empty device. *)
Definition bare : os.FileSystem :=
  {| os.nodes := ∅; os.cwd := []; os.free := 1000 |}.

(** A tombstone in a graveyard two levels deep. *)
Definition deep : Tombstone :=
  {| Born := Some noon; Died := None; ExitCode := None;
     Graveyard := "/var/run/graveyard"; Name := "app" |}.


(** A graveyard whose tombstone [app] is an empty file. *)
Definition blank : os.FileSystem :=
  {| os.nodes := {[ ["g"] := os.Dir; ["g"; "app"] := os.Regular EmptyString ]};
     os.cwd := [];
     os.free := 1000 |}.

Definition is_newline (c : ascii) : bool := Ascii.eqb c text.newline.

(** The lines that [RecordBirth] and [RecordDeath] log. *)
Definition birth_line (t : Tombstone) : string :=
  "Creating tombstone: " +:+ Path t +:+ String text.newline EmptyString.

Definition death_line (t : Tombstone) : string :=
  "Updating tombstone: " +:+ Path t +:+ String text.newline EmptyString.

(** An error with a message put in front of it, as [fmt.Errorf] with
    [%v] does. *)
Definition wrapped (message : string) (err : option error) : option error :=
  match err with
  | Some e => Some (message +:+ e)
  | None => None
  end.

(** A timestamp that [Read] can return: its fields are within their
    ranges and its year has four digits. *)
Definition readable_time (p : option time.Time) : Prop :=
  match p with
  | Some t => time.valid t = true /\ 0 <= time.Year t < 10000
  | None => True
  end.

(** Path elements that [filepath.Clean] leaves alone: not empty, not
    [.] or [..], and without a separator. *)
Definition no_slash (c : ascii) : bool := negb (Ascii.eqb c "/").

Definition plain_name (e : string) : bool :=
  negb (String.eqb e EmptyString) && negb (String.eqb e ".") && negb (String.eqb e "..")
  && text.forallb no_slash e.

(** The path with the given elements, from the root or from the working
    directory. *)
Definition path_of (rooted : bool) (elems : list string) : string :=
  if rooted then String "/" (text.join "/" elems) else text.join "/" elems.

(** * Part II: lemmas and theorems *)

Section TextFacts.

Lemma digit_cases (d : Z) :
  0 <= d < 10 ->
  d = 0 \/ d = 1 \/ d = 2 \/ d = 3 \/ d = 4 \/ d = 5 \/ d = 6 \/ d = 7 \/ d = 8 \/ d = 9.
Proof. lia. Qed.

Lemma is_digit_digit_char (d : Z) :
  0 <= d < 10 -> text.is_digit (text.digit_char d) = true.
Proof.
  intros Hd. destruct (digit_cases d Hd) as [-> | [-> | [-> | [-> | [-> | [-> | [-> | [-> | [-> | ->]]]]]]]]];
    reflexivity.
Qed.

Lemma digit_value_digit_char (d : Z) :
  0 <= d < 10 -> text.digit_value (text.digit_char d) = d.
Proof.
  intros Hd. destruct (digit_cases d Hd) as [-> | [-> | [-> | [-> | [-> | [-> | [-> | [-> | [-> | ->]]]]]]]]];
    reflexivity.
Qed.

(** The most significant digit comes first. *)
Lemma pad_int_head (w : nat) : forall (x : Z) (tail : string),
  0 <= x < 10 ^ Z.of_nat (S w) ->
  text.pad_int (S w) x tail =
  String (text.digit_char (x / 10 ^ Z.of_nat w)) (text.pad_int w (x mod 10 ^ Z.of_nat w) tail).
Proof.
  induction w as [|w IH]; intros x tail Hx.
  - simpl. change (10 ^ Z.of_nat 1) with 10 in Hx.
    rewrite Z.div_1_r, Z.mod_small by lia. reflexivity.
  - assert (Hp : 0 < 10 ^ Z.of_nat w) by (apply Z.pow_pos_nonneg; lia).
    assert (E1 : 10 ^ Z.of_nat (S w) = 10 * 10 ^ Z.of_nat w)
      by (rewrite Nat2Z.inj_succ, Z.pow_succ_r by lia; reflexivity).
    assert (E2 : 10 ^ Z.of_nat (S (S w)) = 10 * 10 ^ Z.of_nat (S w))
      by (rewrite (Nat2Z.inj_succ (S w)), Z.pow_succ_r by lia; reflexivity).
    change (text.pad_int (S (S w)) x tail)
      with (text.pad_int (S w) (x / 10) (String (text.digit_char (x mod 10)) tail)).
    rewrite IH by (split; [apply Z.div_pos; lia | apply Z.div_lt_upper_bound; lia]).
    change (text.pad_int (S w) (x mod 10 ^ Z.of_nat (S w)) tail)
      with (text.pad_int w ((x mod 10 ^ Z.of_nat (S w)) / 10)
              (String (text.digit_char ((x mod 10 ^ Z.of_nat (S w)) mod 10)) tail)).
    rewrite E1.
    rewrite Z.rem_mul_r by lia.
    rewrite Z.div_div by lia.
    replace ((x mod 10 + 10 * ((x / 10) mod 10 ^ Z.of_nat w)) / 10)
      with ((x / 10) mod 10 ^ Z.of_nat w).
    2:{ rewrite (Z.mul_comm 10), Z.div_add by lia.
        rewrite (Z.div_small (x mod 10)) by (apply Z.mod_pos_bound; lia). lia. }
    replace ((x mod 10 + 10 * ((x / 10) mod 10 ^ Z.of_nat w)) mod 10) with (x mod 10).
    2:{ rewrite (Z.mul_comm 10), Z.mod_add by lia.
        rewrite Z.mod_mod by lia. reflexivity. }
    reflexivity.
Qed.

Lemma pow10_pos (w : nat) : 0 < 10 ^ Z.of_nat w.
Proof. apply Z.pow_pos_nonneg; lia. Qed.

Lemma pow10_succ (w : nat) : 10 ^ Z.of_nat (S w) = 10 * 10 ^ Z.of_nat w.
Proof. rewrite Nat2Z.inj_succ, Z.pow_succ_r by lia. reflexivity. Qed.

Lemma head_digit_range (w : nat) (x : Z) :
  0 <= x < 10 ^ Z.of_nat (S w) -> 0 <= x / 10 ^ Z.of_nat w < 10.
Proof.
  intros Hx. pose proof (pow10_pos w). rewrite pow10_succ in Hx. split.
  - apply Z.div_pos; lia.
  - apply Z.div_lt_upper_bound; lia.
Qed.

Lemma take_digits_pad_int (w : nat) : forall (x acc : Z) (tail : string),
  0 <= x < 10 ^ Z.of_nat w ->
  text.take_digits w acc (text.pad_int w x tail) = Some (acc * 10 ^ Z.of_nat w + x, tail).
Proof.
  induction w as [|w IH]; intros x acc tail Hx.
  - simpl in *. f_equal. f_equal. lia.
  - rewrite pad_int_head by exact Hx.
    pose proof (head_digit_range w x Hx) as Hd.
    pose proof (pow10_pos w) as Hp.
    cbn [text.take_digits].
    rewrite is_digit_digit_char, digit_value_digit_char by exact Hd.
    rewrite IH by (apply Z.mod_pos_bound; lia).
    f_equal. f_equal. rewrite pow10_succ.
    pose proof (Z.div_mod x (10 ^ Z.of_nat w)). nia.
Qed.

Lemma span_digits_pad_int (w : nat) : forall (keep : nat) (x acc : Z) (used : nat) (tail : string),
  0 <= x < 10 ^ Z.of_nat w ->
  (w <= keep)%nat ->
  text.starts_with_digit tail = false ->
  text.span_digits keep acc used (text.pad_int w x tail)
  = (acc * 10 ^ Z.of_nat w + x, (used + w)%nat, tail).
Proof.
  induction w as [|w IH]; intros keep x acc used tail Hx Hk Ht.
  - simpl in Hx. simpl text.pad_int. replace (used + 0)%nat with used by lia.
    replace (acc * 10 ^ Z.of_nat 0 + x) with acc by (simpl; lia).
    destruct tail as [|c r]; [reflexivity|]. simpl in Ht. simpl. rewrite Ht. reflexivity.
  - rewrite pad_int_head by exact Hx.
    pose proof (head_digit_range w x Hx) as Hd.
    pose proof (pow10_pos w) as Hp.
    destruct keep as [|keep]; [lia|].
    cbn [text.span_digits].
    rewrite is_digit_digit_char, digit_value_digit_char by exact Hd.
    rewrite IH by (try apply Z.mod_pos_bound; try lia; assumption).
    replace (S used + w)%nat with (used + S w)%nat by lia.
    f_equal. f_equal.
    rewrite pow10_succ. pose proof (Z.div_mod x (10 ^ Z.of_nat w)). nia.
Qed.

Lemma forallb_pad_int (p : ascii -> bool) (w : nat) : forall (x : Z) (tail : string),
  (forall c, text.is_digit c = true -> p c = true) ->
  text.forallb p (text.pad_int w x tail) = text.forallb p tail.
Proof.
  induction w as [|w IH]; intros x tail Hp; [reflexivity|].
  simpl. rewrite IH by exact Hp. simpl.
  rewrite Hp; [reflexivity|].
  apply is_digit_digit_char. apply Z.mod_pos_bound. lia.
Qed.

End TextFacts.

Section TimeFacts.

Lemma trim_spec (w : nat) : forall x : Z,
  0 < x < 10 ^ Z.of_nat w ->
  let '(w', x') := time.trim w x in
  (1 <= w' <= w)%nat /\ 0 <= x' < 10 ^ Z.of_nat w' /\ x' * 10 ^ Z.of_nat (w - w') = x.
Proof.
  induction w as [|w IH]; intros x Hx.
  - simpl in Hx. lia.
  - cbn [time.trim]. destruct (x mod 10 =? 0) eqn:E.
    + apply Z.eqb_eq in E.
      rewrite pow10_succ in Hx.
      pose proof (Z.div_mod x 10).
      specialize (IH (x / 10)).
      destruct (time.trim w (x / 10)) as [w' x'].
      destruct IH as (Hw & Hx' & Hv); [lia|].
      split; [lia|]. split; [assumption|].
      replace (S w - w')%nat with (S (w - w')) by lia.
      rewrite pow10_succ. lia.
    + split; [lia|]. split; [lia|].
      replace (S w - S w)%nat with O by lia. simpl. lia.
Qed.

Lemma starts_with_digit_formatZone (offset : Z) :
  text.starts_with_digit (time.formatZone offset) = false.
Proof.
  unfold time.formatZone. destruct (offset =? 0); [reflexivity|].
  destruct (offset <? 0); reflexivity.
Qed.

Lemma parseNano_formatNano (nsec : Z) (tail : string) :
  0 <= nsec < 1000000000 ->
  text.starts_with_digit tail = false ->
  (forall r, tail <> String "." r) ->
  time.parseNano (time.formatNano nsec tail) = (nsec, tail).
Proof.
  intros Hn Ht Hdot. unfold time.formatNano.
  destruct (nsec =? 0) eqn:E.
  - apply Z.eqb_eq in E. subst nsec.
    destruct tail as [|c r]; [reflexivity|].
    unfold time.parseNano.
    destruct (Ascii.eqb_spec c ".") as [->|Hc]; [exfalso; eapply Hdot; reflexivity|].
    destruct c as [[] [] [] [] [] [] [] []]; try reflexivity; congruence.
  - apply Z.eqb_neq in E.
    pose proof (trim_spec 9 nsec) as Hs.
    destruct (time.trim 9 nsec) as [w x].
    destruct Hs as (Hw & Hx & Hv); [change (10 ^ Z.of_nat 9) with 1000000000; lia|].
    unfold time.parseNano.
    destruct w as [|w]; [lia|].
    assert (Hd : text.starts_with_digit (text.pad_int (S w) x tail) = true).
    { rewrite pad_int_head by exact Hx. simpl.
      apply is_digit_digit_char, head_digit_range, Hx. }
    rewrite Hd.
    rewrite span_digits_pad_int by (try assumption; lia).
    rewrite Z.mul_0_l, Z.add_0_l, Nat.add_0_l, Hv. reflexivity.
Qed.

Lemma parseZone_formatZone (offset : Z) :
  -1440 < offset < 1440 ->
  time.parseZone (time.formatZone offset) = Some offset.
Proof.
  intros Ho. unfold time.formatZone.
  destruct (offset =? 0) eqn:E; [apply Z.eqb_eq in E; subst; reflexivity|].
  apply Z.eqb_neq in E.
  set (a := Z.abs offset).
  assert (Ha : 0 < a < 1440) by (subst a; lia).
  assert (Hh : 0 <= a / 60 < 24)
    by (split; [apply Z.div_pos; lia | apply Z.div_lt_upper_bound; lia]).
  assert (Hm : 0 <= a mod 60 < 60) by (apply Z.mod_pos_bound; lia).
  assert (Hsum : a / 60 * 60 + a mod 60 = a) by (pose proof (Z.div_mod a 60); lia).
  destruct (offset <? 0) eqn:Hneg.
  - apply Z.ltb_lt in Hneg.
    cbn [time.parseZone Ascii.eqb Bool.eqb orb].
    rewrite take_digits_pad_int by (change (10 ^ Z.of_nat 2) with 100; lia).
    cbn [mbind option_bind text.expect Ascii.eqb Bool.eqb].
    rewrite take_digits_pad_int by (change (10 ^ Z.of_nat 2) with 100; lia).
    cbn [mbind option_bind].
    replace (0 * 10 ^ Z.of_nat 2 + a / 60) with (a / 60) by lia.
    replace (0 * 10 ^ Z.of_nat 2 + a mod 60) with (a mod 60) by lia.
    replace (a / 60 <? 24) with true by (symmetry; apply Z.ltb_lt; lia).
    replace (a mod 60 <? 60) with true by (symmetry; apply Z.ltb_lt; lia).
    cbn [andb]. f_equal. subst a. lia.
  - apply Z.ltb_ge in Hneg.
    cbn [time.parseZone Ascii.eqb Bool.eqb orb].
    rewrite take_digits_pad_int by (change (10 ^ Z.of_nat 2) with 100; lia).
    cbn [mbind option_bind text.expect Ascii.eqb Bool.eqb].
    rewrite take_digits_pad_int by (change (10 ^ Z.of_nat 2) with 100; lia).
    cbn [mbind option_bind].
    replace (0 * 10 ^ Z.of_nat 2 + a / 60) with (a / 60) by lia.
    replace (0 * 10 ^ Z.of_nat 2 + a mod 60) with (a mod 60) by lia.
    replace (a / 60 <? 24) with true by (symmetry; apply Z.ltb_lt; lia).
    replace (a mod 60 <? 60) with true by (symmetry; apply Z.ltb_lt; lia).
    cbn [andb]. f_equal. subst a. lia.
Qed.

Lemma valid_ranges (t : time.Time) :
  time.valid t = true ->
  1 <= time.Month t <= 12 /\ 1 <= time.Day t <= 31 /\
  0 <= time.Hour t < 24 /\ 0 <= time.Minute t < 60 /\ 0 <= time.Second t < 60 /\
  0 <= time.Nanosecond t < 1000000000 /\ -1440 < time.Offset t < 1440.
Proof.
  unfold time.valid. rewrite !andb_true_iff.
  rewrite !Z.leb_le, !Z.ltb_lt.
  intros H.
  assert (time.daysIn (time.Month t) (time.Year t) <= 31).
  { unfold time.daysIn.
    repeat match goal with |- context [if ?b then _ else _] => destruct b end; lia. }
  lia.
Qed.

(** Reading back the RFC 3339 text of a timestamp gives the timestamp. *)
Lemma ParseRFC3339_Format (t : time.Time) :
  time.valid t = true ->
  0 <= time.Year t < 10000 ->
  time.ParseRFC3339 (time.FormatRFC3339Nano t) = Some t.
Proof.
  intros Hv Hy. pose proof (valid_ranges t Hv) as (Hmo & Hd & Hh & Hmi & Hs & Hn & Ho).
  unfold time.ParseRFC3339, time.FormatRFC3339Nano.
  rewrite take_digits_pad_int by (change (10 ^ Z.of_nat 4) with 10000; lia).
  cbn [mbind option_bind text.expect Ascii.eqb Bool.eqb].
  repeat (rewrite take_digits_pad_int by (change (10 ^ Z.of_nat 2) with 100; lia);
          cbn [mbind option_bind text.expect Ascii.eqb Bool.eqb]).
  rewrite parseNano_formatNano.
  - rewrite parseZone_formatZone by exact Ho.
    cbn [mbind option_bind].
    replace (0 * 10 ^ Z.of_nat 4 + time.Year t) with (time.Year t) by lia.
    replace (0 * 10 ^ Z.of_nat 2 + time.Month t) with (time.Month t) by lia.
    replace (0 * 10 ^ Z.of_nat 2 + time.Day t) with (time.Day t) by lia.
    replace (0 * 10 ^ Z.of_nat 2 + time.Hour t) with (time.Hour t) by lia.
    replace (0 * 10 ^ Z.of_nat 2 + time.Minute t) with (time.Minute t) by lia.
    replace (0 * 10 ^ Z.of_nat 2 + time.Second t) with (time.Second t) by lia.
    destruct t; simpl in *. rewrite Hv. reflexivity.
  - exact Hn.
  - apply starts_with_digit_formatZone.
  - intros r. unfold time.formatZone.
    destruct (time.Offset t =? 0); [discriminate|].
    destruct (time.Offset t <? 0); discriminate.
Qed.

Lemma UnmarshalJSON_MarshalJSON (t : time.Time) (s : string) :
  time.valid t = true ->
  time.MarshalJSON t = inr s ->
  time.UnmarshalJSON s = inr t.
Proof.
  intros Hv. unfold time.MarshalJSON, time.UnmarshalJSON.
  destruct (_ || _) eqn:E; [discriminate|].
  apply orb_false_iff in E. destruct E as [E1 E2].
  apply Z.ltb_ge in E1. apply Z.leb_gt in E2.
  intros [= <-]. rewrite ParseRFC3339_Format by (assumption || lia). reflexivity.
Qed.

End TimeFacts.

Section ItoaFacts.

Lemma to_int_proper (z : Z) : Z.to_int z <> Decimal.Pos Decimal.Nil /\ Z.to_int z <> Decimal.Neg Decimal.Nil.
Proof.
  destruct z as [|p|p]; simpl; split; try discriminate;
    intros [= E]; exact (Unsigned.to_uint_nonnil p E).
Qed.

Lemma atoi_itoa (z : Z) : text.atoi (text.itoa z) = Some z.
Proof.
  unfold text.atoi. unfold text.itoa at 1.
  destruct (to_int_proper z) as [Hp Hn].
  rewrite NilZero.isi by assumption.
  rewrite DecimalZ.of_to. rewrite String.eqb_refl. reflexivity.
Qed.

Lemma digits_string_of_uint (d : Decimal.uint) :
  text.forallb text.is_digit (NilEmpty.string_of_uint d) = true.
Proof. induction d; simpl; auto. Qed.

Lemma itoa_chars (z : Z) : text.forallb sign_or_digit (text.itoa z) = true.
Proof.
  assert (Hu : forall d, text.forallb sign_or_digit (NilZero.string_of_uint d) = true).
  { intros d. destruct d; try reflexivity;
      simpl; induction d; simpl; auto. }
  unfold text.itoa. destruct (Z.to_int z); simpl; auto.
Qed.

Lemma itoa_nonempty (z : Z) : text.itoa z <> EmptyString.
Proof.
  unfold text.itoa. destruct (Z.to_int z) as [d|d]; simpl; [|discriminate].
  destruct d; discriminate.
Qed.

Lemma forallb_app (p : ascii -> bool) (a b : string) :
  text.forallb p (a +:+ b) = text.forallb p a && text.forallb p b.
Proof. induction a as [|c a IH]; simpl; [reflexivity|]. rewrite IH, andb_assoc. reflexivity. Qed.

Lemma forallb_impl (p q : ascii -> bool) (s : string) :
  (forall c, p c = true -> q c = true) ->
  text.forallb p s = true -> text.forallb q s = true.
Proof.
  intros Hpq. induction s as [|c s IH]; simpl; [reflexivity|].
  rewrite !andb_true_iff. intros [? ?]. auto.
Qed.

End ItoaFacts.

Section YamlFacts.

Lemma time_char_digit (c : ascii) : text.is_digit c = true -> time_char c = true.
Proof. unfold time_char. intros ->. reflexivity. Qed.

Lemma time_char_unescaped (c : ascii) : time_char c = true -> unescaped c = true.
Proof. destruct c as [[] [] [] [] [] [] [] []]; vm_compute; congruence. Qed.

Lemma sign_or_digit_unescaped (c : ascii) : sign_or_digit c = true -> unescaped c = true.
Proof. destruct c as [[] [] [] [] [] [] [] []]; vm_compute; congruence. Qed.

Lemma key_char_unescaped (c : ascii) : yaml.is_key_char c = true -> unescaped c = true.
Proof. destruct c as [[] [] [] [] [] [] [] []]; vm_compute; congruence. Qed.

Lemma key_char_not_colon (c : ascii) : yaml.is_key_char c = true -> Ascii.eqb c ":" = false.
Proof. destruct c as [[] [] [] [] [] [] [] []]; vm_compute; congruence. Qed.

Lemma time_chars_Format (t : time.Time) :
  text.forallb time_char (time.FormatRFC3339Nano t) = true.
Proof.
  unfold time.FormatRFC3339Nano.
  repeat (rewrite forallb_pad_int by exact time_char_digit; cbn [text.forallb];
          rewrite ?andb_true_l).
  change (time_char "-") with true. change (time_char "T") with true.
  change (time_char ":") with true. rewrite ?andb_true_l.
  repeat (rewrite forallb_pad_int by exact time_char_digit; cbn [text.forallb];
          rewrite ?andb_true_l).
  assert (Hz : text.forallb time_char (time.formatZone (time.Offset t)) = true).
  { unfold time.formatZone. destruct (_ =? 0); [reflexivity|].
    cbn [text.forallb].
    rewrite forallb_pad_int by exact time_char_digit. cbn [text.forallb].
    rewrite forallb_pad_int by exact time_char_digit.
    destruct (_ <? 0); reflexivity. }
  unfold time.formatNano. destruct (_ =? 0); [exact Hz|].
  destruct (time.trim 9 _) as [w x]. cbn [text.forallb].
  rewrite forallb_pad_int by exact time_char_digit. exact Hz.
Qed.

Lemma unescaped_MarshalJSON (t : time.Time) (s : string) :
  time.MarshalJSON t = inr s -> text.forallb unescaped s = true.
Proof.
  unfold time.MarshalJSON. destruct (_ || _); [discriminate|]. intros [= <-].
  eapply forallb_impl; [exact time_char_unescaped | apply time_chars_Format].
Qed.

Lemma unescaped_not_newline (c : ascii) : unescaped c = true -> not_newline c = true.
Proof. destruct c as [[] [] [] [] [] [] [] []]; vm_compute; congruence. Qed.

Lemma unescaped_not_dquote (c : ascii) :
  unescaped c = true -> Ascii.eqb c text.dquote = false.
Proof. destruct c as [[] [] [] [] [] [] [] []]; vm_compute; congruence. Qed.

Lemma split_line (a b : string) :
  text.forallb not_newline a = true ->
  text.split text.newline (a +:+ String text.newline b) = a :: text.split text.newline b.
Proof.
  induction a as [|c a IH]; intros Ha.
  - reflexivity.
  - simpl in Ha. apply andb_true_iff in Ha as [Hc Ha].
    change ((String c a) +:+ String text.newline b)
      with (String c (a +:+ String text.newline b)).
    cbn [text.split]. rewrite IH by exact Ha.
    unfold not_newline in Hc. apply negb_true_iff in Hc. rewrite Hc. reflexivity.
Qed.

Lemma cut_key (k r : string) :
  text.forallb yaml.is_key_char k = true ->
  text.cut ":" (k +:+ String ":" r) = (k, Some r).
Proof.
  induction k as [|c k IH]; intros Hk.
  - reflexivity.
  - simpl in Hk. apply andb_true_iff in Hk as [Hc Hk].
    change ((String c k) +:+ String ":" r) with (String c (k +:+ String ":" r)).
    cbn [text.cut]. rewrite (key_char_not_colon c Hc), IH by exact Hk. reflexivity.
Qed.

Lemma quoted_closing (s : string) :
  text.forallb unescaped s = true ->
  yaml.quoted (s +:+ String text.dquote EmptyString) = Some s.
Proof.
  induction s as [|c s IH]; intros Hs.
  - reflexivity.
  - simpl in Hs. apply andb_true_iff in Hs as [Hc Hs].
    change ((String c s) +:+ String text.dquote EmptyString)
      with (String c (s +:+ String text.dquote EmptyString)).
    cbn [yaml.quoted]. rewrite IH by exact Hs.
    rewrite (unescaped_not_dquote c Hc). unfold unescaped in Hc. rewrite Hc. reflexivity.
Qed.

Lemma itoa_head (z : Z) :
  exists c r, text.itoa z = String c r /\ sign_or_digit c = true.
Proof.
  pose proof (itoa_chars z) as Hc. pose proof (itoa_nonempty z) as Hn.
  destruct (text.itoa z) as [|c r]; [congruence|].
  simpl in Hc. apply andb_true_iff in Hc as [Hc _]. eauto.
Qed.

Lemma parse_scalar_text (v : json.Value) :
  plain_value v -> yaml.parse_scalar (yaml.scalar_text v) = Some v.
Proof.
  destruct v as [|z|s]; simpl; [tauto| |]; intros Hv.
  - pose proof (atoi_itoa z) as Hr.
    destruct (itoa_head z) as (c & r & E & Hc). rewrite E in *.
    unfold yaml.parse_scalar.
    assert (Hne : String.eqb (String c r) EmptyString || String.eqb (String c r) "null"
                  || String.eqb (String c r) "~" = false).
    { destruct c as [[] [] [] [] [] [] [] []]; try discriminate Hc; reflexivity. }
    rewrite Hne.
    assert (Hq : Ascii.eqb c text.dquote = false).
    { destruct c as [[] [] [] [] [] [] [] []]; try discriminate Hc; reflexivity. }
    rewrite Hq, Hr. reflexivity.
  - unfold yaml.parse_scalar. cbn [String.eqb Ascii.eqb orb].
    change (Ascii.eqb text.dquote text.dquote) with true. cbv iota.
    rewrite quoted_closing by exact Hv. reflexivity.
Qed.

Lemma scalar_text_one_line (v : json.Value) :
  plain_value v -> text.forallb not_newline (yaml.scalar_text v) = true.
Proof.
  destruct v as [|z|s]; simpl; [tauto| |]; intros Hv.
  - eapply forallb_impl; [|apply itoa_chars].
    intros c Hc. apply unescaped_not_newline, sign_or_digit_unescaped, Hc.
  - rewrite forallb_app. simpl. rewrite andb_true_r.
    eapply forallb_impl; [exact unescaped_not_newline | exact Hv].
Qed.

Lemma skip_spaces_scalar_text (v : json.Value) :
  plain_value v -> yaml.skip_spaces (yaml.scalar_text v) = yaml.scalar_text v.
Proof.
  destruct v as [|z|s]; simpl; [tauto| |]; intros Hv.
  - destruct (itoa_head z) as (c & r & -> & Hc).
    destruct c as [[] [] [] [] [] [] [] []]; try discriminate Hc; reflexivity.
  - reflexivity.
Qed.

Lemma append_assoc (a b c : string) : (a +:+ b) +:+ c = a +:+ (b +:+ c).
Proof.
  induction a as [|x a IH]; [reflexivity|].
  change (String x ((a +:+ b) +:+ c) = String x (a +:+ (b +:+ c))).
  rewrite IH. reflexivity.
Qed.

Lemma is_key_chars (k : string) :
  yaml.is_key k = true ->
  text.forallb yaml.is_key_char k = true /\
  exists c r, k = String c r /\ yaml.is_alpha c = true.
Proof.
  unfold yaml.is_key. destruct k as [|c r]; [discriminate|].
  rewrite !andb_true_iff. intros [[Ha Hk] _]. eauto.
Qed.

Lemma parse_line_of (m : string * json.Value) :
  good_member m -> yaml.parse_line (line_of m) = Some m.
Proof.
  destruct m as [k v]. intros [Hk Hv]. simpl in Hk, Hv.
  destruct (is_key_chars k Hk) as [Hc _].
  unfold yaml.parse_line, line_of. simpl fst. simpl snd.
  change (k +:+ ": " +:+ yaml.scalar_text v)
    with (k +:+ String ":" (String " " (yaml.scalar_text v))).
  rewrite cut_key by exact Hc. rewrite Hk.
  rewrite skip_spaces_scalar_text, parse_scalar_text by exact Hv. reflexivity.
Qed.

Lemma line_of_one_line (m : string * json.Value) :
  good_member m -> text.forallb not_newline (line_of m) = true.
Proof.
  destruct m as [k v]. intros [Hk Hv]. simpl in Hk, Hv.
  destruct (is_key_chars k Hk) as [Hc _].
  unfold line_of. simpl fst. simpl snd.
  rewrite !forallb_app, scalar_text_one_line by exact Hv.
  rewrite (forallb_impl yaml.is_key_char not_newline k); [reflexivity| |exact Hc].
  intros c H. apply unescaped_not_newline, key_char_unescaped, H.
Qed.

Lemma line_of_head (m : string * json.Value) :
  good_member m -> exists c r, line_of m = String c r /\ yaml.is_alpha c = true.
Proof.
  destruct m as [k v]. intros [Hk _]. simpl in Hk.
  destruct (is_key_chars k Hk) as [_ (c & r & -> & Ha)].
  unfold line_of. simpl. eauto.
Qed.

Lemma lines_text_cons (m : string * json.Value) (o : json.Object) :
  yaml.lines_text (m :: o) = line_of m +:+ String text.newline (yaml.lines_text o).
Proof.
  destruct m as [k v]. unfold line_of. simpl fst. simpl snd.
  cbn [yaml.lines_text]. rewrite !append_assoc. reflexivity.
Qed.

Lemma parse_lines_text (o : json.Object) : forall n : nat,
  Forall good_member o ->
  yaml.parse_lines n (text.split text.newline (yaml.lines_text o)) = inr o.
Proof.
  induction o as [|m o IH]; intros n Ho.
  - reflexivity.
  - inversion Ho as [|? ? Hm Ho']; subst.
    rewrite lines_text_cons, split_line by (apply line_of_one_line, Hm).
    cbn [yaml.parse_lines].
    destruct (line_of_head m Hm) as (c & r & E & _).
    rewrite E. cbn [String.eqb]. rewrite <- E.
    rewrite parse_line_of by exact Hm.
    rewrite IH by exact Ho'. reflexivity.
Qed.

(** Reading back what [JSONToYAML] wrote for members in key order. *)
Lemma YAMLToJSON_lines_text (o : json.Object) :
  o <> [] ->
  Forall good_member o ->
  NoDup (map fst o) ->
  yaml.YAMLToJSON (yaml.lines_text o) = inr (Some (merge_sort yaml.by_key o)).
Proof.
  intros Hne Ho Hd. unfold yaml.YAMLToJSON.
  rewrite parse_lines_text by exact Ho.
  destruct o as [|m o]; [congruence|].
  inversion Ho as [|? ? Hm Ho']; subst.
  rewrite lines_text_cons, split_line by (apply line_of_one_line, Hm).
  destruct (line_of_head m Hm) as (c & r & E & Ha).
  rewrite E. rewrite filter_cons_True by discriminate.
  destruct (decide (_ = [])) as [Hnil|_]; [discriminate Hnil|].
  destruct (decide (_ = ["{}"])) as [Hobj|_].
  { injection Hobj as -> _ _. discriminate Ha. }
  unfold yaml.distinct_keys. rewrite bool_decide_eq_true_2 by exact Hd.
  reflexivity.
Qed.

End YamlFacts.

Section CodecFacts.

(** What the tags of [Tombstone] make of a record. *)
Lemma encode_Tombstone (t : Tombstone) :
  json.encode t =
  match time_member "Born" (Born t) with
  | inl err => inl err
  | inr born =>
      match time_member "Died" (Died t) with
      | inl err => inl err
      | inr died => inr (born ++ died ++ int_member "ExitCode" (ExitCode t))%list
      end
  end.
Proof.
  destruct t as [[b|] [d|] [c|] g n];
    unfold json.encode;
    cbn [json.fields Tombstone_struct json.encode_fields json.field_get json.FieldName];
    repeat match goal with
           | |- context [json.visible ?f] =>
               let v := eval vm_compute in (json.visible f) in change (json.visible f) with v
           | |- context [json.omitempty ?f] =>
               let v := eval vm_compute in (json.omitempty f) in change (json.omitempty f) with v
           | |- context [json.key_of ?f] =>
               let v := eval vm_compute in (json.key_of f) in change (json.key_of f) with v
           | |- context [get ?t ?f] =>
               let v := eval cbv in (get t f) in change (get t f) with v
           end;
    cbn [negb orb andb json.isEmptyValue json.encode_value time_member int_member
         Born Died ExitCode app];
    repeat match goal with
           | |- context [time.MarshalJSON ?x] => destruct (time.MarshalJSON x)
           end; reflexivity.
Qed.

Lemma good_time_member (key s : string) (t : time.Time) :
  yaml.is_key key = true ->
  time.MarshalJSON t = inr s ->
  good_member (key, json.Str s).
Proof. intros Hk Hs. split; [exact Hk | exact (unescaped_MarshalJSON t s Hs)]. Qed.

Lemma good_int_member (key : string) (z : Z) :
  yaml.is_key key = true -> good_member (key, json.Number z).
Proof. intros Hk. split; [exact Hk | exact I]. Qed.

Lemma decode_Born (s : string) (rest : json.Object) (t : Tombstone) :
  json.decode (("Born", json.Str s) :: rest) t =
  match time.UnmarshalJSON s with
  | inl err => inl err
  | inr b => json.decode rest (set t "Born" (json.PtrTime (Some b)))
  end.
Proof.
  cbn [json.decode].
  change (json.find_field json.fields "Born")
    with (Some {| json.FieldName := "Born"; json.Tag := ",omitempty" |}).
  cbn [json.FieldName json.field_get json.field_set Tombstone_struct].
  change (get t "Born") with (json.PtrTime (Born t)).
  cbn [json.decode_value]. destruct (time.UnmarshalJSON s); reflexivity.
Qed.

Lemma decode_Died (s : string) (rest : json.Object) (t : Tombstone) :
  json.decode (("Died", json.Str s) :: rest) t =
  match time.UnmarshalJSON s with
  | inl err => inl err
  | inr d => json.decode rest (set t "Died" (json.PtrTime (Some d)))
  end.
Proof.
  cbn [json.decode].
  change (json.find_field json.fields "Died")
    with (Some {| json.FieldName := "Died"; json.Tag := ",omitempty" |}).
  cbn [json.FieldName json.field_get json.field_set Tombstone_struct].
  change (get t "Died") with (json.PtrTime (Died t)).
  cbn [json.decode_value]. destruct (time.UnmarshalJSON s); reflexivity.
Qed.

Lemma decode_ExitCode (z : Z) (rest : json.Object) (t : Tombstone) :
  (json.int_min <=? z) && (z <=? json.int_max) = true ->
  json.decode (("ExitCode", json.Number z) :: rest) t =
  json.decode rest (set t "ExitCode" (json.PtrInt (Some z))).
Proof.
  intros Hz. cbn [json.decode].
  change (json.find_field json.fields "ExitCode")
    with (Some {| json.FieldName := "ExitCode"; json.Tag := ",omitempty" |}).
  cbn [json.FieldName json.field_get Tombstone_struct].
  change (get t "ExitCode") with (json.PtrInt (ExitCode t)).
  cbn [json.decode_value]. rewrite Hz. reflexivity.
Qed.

(** Reading back what [yaml.Marshal] wrote, into a record that has only
    its [Graveyard] and [Name], restores the three optional fields. *)
Lemma Unmarshal_Marshal (t : Tombstone) (pretty g n : string) :
  well_formed t = true ->
  yaml.Marshal t = inr pretty ->
  yaml.Unmarshal pretty
    {| Born := None; Died := None; ExitCode := None; Graveyard := g; Name := n |}
  = inr {| Born := Born t; Died := Died t; ExitCode := ExitCode t;
           Graveyard := g; Name := n |}.
Proof.
  unfold well_formed, yaml.Marshal.
  destruct (json.encode t) as [err|o] eqn:Eo; [discriminate|].
  intros Hwf Hp. assert (pretty = yaml.JSONToYAML o) as -> by congruence. clear Hp.
  rewrite encode_Tombstone in Eo. revert Hwf Eo.
  destruct t as [[b|] [d|] [c|] g0 n0];
    cbn [Born Died ExitCode valid_time valid_int time_member int_member app];
    rewrite ?andb_true_r, ?andb_true_iff; intros Hwf;
    repeat match goal with
           | |- context [time.MarshalJSON ?x] =>
               let E := fresh "E" in destruct (time.MarshalJSON x) eqn:E
           end;
    try discriminate; intros Eo; injection Eo as <-;
    try reflexivity;
    match goal with
    | |- context [yaml.JSONToYAML ?o] =>
        change (yaml.JSONToYAML o) with (yaml.lines_text o);
        unfold yaml.Unmarshal;
        rewrite (YAMLToJSON_lines_text o);
        [ change (merge_sort yaml.by_key o) with o
        | discriminate
        | repeat constructor;
          solve [ eapply good_time_member; [reflexivity | eassumption]
                | apply good_int_member; reflexivity ]
        | apply (bool_decide_unpack _); vm_compute; exact I ]
    end;
    rewrite ?decode_Born, ?decode_Died;
    repeat match goal with
           | E : time.MarshalJSON ?x = inr ?s |- context [time.UnmarshalJSON ?s] =>
               rewrite (UnmarshalJSON_MarshalJSON x s) by tauto
           end;
    rewrite ?decode_Born, ?decode_Died;
    repeat match goal with
           | E : time.MarshalJSON ?x = inr ?s |- context [time.UnmarshalJSON ?s] =>
               rewrite (UnmarshalJSON_MarshalJSON x s) by tauto
           end;
    rewrite ?decode_ExitCode by (apply andb_true_iff; tauto);
    reflexivity.
Qed.

End CodecFacts.

Section FileSystemFacts.

Lemma take_all (s : string) : os.take (String.length s) s = s.
Proof. unfold os.take. induction s as [|c s IH]; simpl; [reflexivity|]. rewrite IH. reflexivity. Qed.

Lemma take_zero (s : string) : os.take 0 s = EmptyString.
Proof. destruct s; reflexivity. Qed.

Lemma drop_empty (n : nat) : os.drop n EmptyString = EmptyString.
Proof. destruct n; reflexivity. Qed.

Lemma append_empty_r (s : string) : s +:+ EmptyString = s.
Proof.
  induction s as [|c s IH]; [reflexivity|].
  change (String c (s +:+ EmptyString) = String c s). rewrite IH. reflexivity.
Qed.

Lemma node_at_store (files : os.FileSystem) (key other : list string) (content : string) (room : nat) :
  other <> key ->
  os.node_at (store files key content room) other = os.node_at files other.
Proof.
  intros Hne. destruct other as [|x other]; [reflexivity|].
  simpl. apply lookup_insert_ne. congruence.
Qed.

Lemma walk_store (elems : list string) : forall (files : os.FileSystem) (cur key : list string)
    (content : string) (room : nat) (res : list string),
  os.node_at files key <> Some os.Dir ->
  os.walk files cur elems = inr res ->
  os.walk (store files key content room) cur elems = inr res.
Proof.
  induction elems as [|e elems IH]; intros files cur key content room res Hk; simpl.
  - trivial.
  - destruct (os.node_at files cur) as [[|c]|] eqn:E; try discriminate.
    intros Hw.
    rewrite node_at_store by (intros ->; congruence).
    rewrite E. apply IH; assumption.
Qed.

Lemma resolve_store (files : os.FileSystem) (op path : string) (key res : list string)
    (content : string) (room : nat) :
  os.node_at files key <> Some os.Dir ->
  os.resolve files op path = inr res ->
  os.resolve (store files key content room) op path = inr res.
Proof.
  unfold os.resolve. intros Hk.
  destruct (String.eqb path EmptyString); [discriminate|].
  change (os.start_of (store files key content room) path) with (os.start_of files path).
  destruct (os.walk files _ _) as [err|r] eqn:E; [discriminate|]. intros [= <-].
  rewrite (walk_store _ _ _ _ _ _ _ Hk E). reflexivity.
Qed.

(** A file that was created and then written without error reads back
    as what was written. *)
Lemma Create_Write_ReadFile (files files2 files3 : os.FileSystem) (name b : string)
    (file file' : os.File) (n : nat) :
  os.Create files name = inr (files2, file) ->
  os.Write files2 file b = (files3, file', n, None) ->
  os.ReadFile (os.Close files3 file') name = inr b.
Proof.
  unfold os.Create. destruct (os.resolve files "open" name) as [err|key] eqn:Er; [discriminate|].
  intros Hc Hw.
  assert (Hnd : os.node_at files key <> Some os.Dir)
    by (intros E; rewrite E in Hc; discriminate).
  assert (Hkey : key <> []) by (intros ->; apply Hnd; reflexivity).
  assert (exists room, files2 = store files key EmptyString room /\
                       file = {| os.name := name; os.node := key; os.offset := 0 |})
    as (room & -> & ->).
  { destruct (os.node_at files key) as [[|old]|]; try discriminate;
      injection Hc as <- <-; eexists; split; reflexivity. }
  clear Hc. revert Hw.
  unfold os.Write. cbn [os.node os.offset store os.nodes os.free os.cwd].
  rewrite lookup_insert_eq. cbn [String.length].
  set (written := (String.length b - (0 + String.length b - 0 - room))%nat).
  destruct (written <? String.length b)%nat eqn:Short; [discriminate|].
  apply Nat.ltb_ge in Short.
  assert (written = String.length b) as -> by (subst written; lia).
  rewrite take_all, take_zero, drop_empty. cbn [String.append].
  rewrite append_empty_r. intros [= <- <- _].
  unfold os.Close, os.ReadFile.
  rewrite insert_insert_eq.
  match goal with
  | |- context [os.resolve ?f _ _] =>
      change f with (store files key b (room + 0 - String.length b))
  end.
  rewrite (resolve_store _ _ _ key key _ _ Hnd Er).
  destruct key as [|x key]; [congruence|].
  cbn [os.node_at store os.nodes]. rewrite lookup_insert_eq. reflexivity.
Qed.

End FileSystemFacts.

Section ReadWriteFacts.

Lemma visible_fields (key : string) (f : json.StructField) :
  json.find_field (json.fields (T := Tombstone)) key = Some f ->
  json.FieldName f = "Born" \/ json.FieldName f = "Died" \/ json.FieldName f = "ExitCode".
Proof.
  unfold json.find_field.
  change (filter (fun f => json.visible f = true) (json.fields (T := Tombstone)))
    with [ {| json.FieldName := "Born"; json.Tag := ",omitempty" |};
           {| json.FieldName := "Died"; json.Tag := ",omitempty" |};
           {| json.FieldName := "ExitCode"; json.Tag := ",omitempty" |} ].
  cbn [find].
  repeat match goal with
         | |- context [if ?b then _ else _] => destruct b
         end;
    intros [= <-]; auto.
Qed.

Lemma decode_keeps_identity (o : json.Object) : forall t t' : Tombstone,
  json.decode o t = inr t' -> Graveyard t' = Graveyard t /\ Name t' = Name t.
Proof.
  induction o as [|[key v] o IH]; intros t t'; cbn [json.decode].
  - intros [= <-]. auto.
  - destruct (json.find_field json.fields key) as [f|] eqn:Ef; [|apply IH].
    apply visible_fields in Ef.
    cbn [json.field_get json.field_set Tombstone_struct].
    destruct (json.decode_value _ _ v) as [err|fv] eqn:Ev; [discriminate|].
    intros Hd. apply IH in Hd. destruct Hd as [-> ->].
    destruct Ef as [E | [E | E]]; rewrite E in *; clear E;
      [ change (get t "Born") with (json.PtrTime (Born t)) in Ev
      | change (get t "Died") with (json.PtrTime (Died t)) in Ev
      | change (get t "ExitCode") with (json.PtrInt (ExitCode t)) in Ev ];
      destruct v; cbn [json.decode_value] in Ev;
      repeat match type of Ev with
             | context [match ?x with _ => _ end] => destruct x
             | context [if ?x then _ else _] => destruct x
             end;
      try discriminate; injection Ev as <-; split; reflexivity.
Qed.

(** The identity of a record that [Read] returns is the arguments of
    the call, whatever the file holds. *)
Lemma Read_identity (w : World) (graveyard name : string) (t : Tombstone) :
  Read w graveyard name = inr t -> Graveyard t = graveyard /\ Name t = name.
Proof.
  unfold Read. destruct (os.ReadFile _ _) as [err|bytes]; [discriminate|].
  unfold yaml.Unmarshal.
  destruct (yaml.YAMLToJSON bytes) as [err|[o|]]; [discriminate| |].
  - destruct (json.decode o _) as [err|t'] eqn:Ed; [discriminate|].
    intros [= <-]. apply decode_keeps_identity in Ed. exact Ed.
  - intros [= <-]. auto.
Qed.

(** What [Write] does when no call fails. *)
Lemma Write_success (t : Tombstone) (w w' : World) :
  Write t w = (w', None) ->
  exists files1 files2 file pretty,
    os.MkdirAll (fs w) (Graveyard t) = inr files1 /\
    os.Create files1 (Path t) = inr (files2, file) /\
    yaml.Marshal t = inr pretty /\
    w' = with_fs w (os.Close (os.Write files2 file pretty).1.1.1 (os.Write files2 file pretty).1.1.2).
Proof.
  unfold Write.
  destruct (os.MkdirAll _ _) as [err|files1] eqn:Em; [discriminate|].
  destruct (os.Create _ _) as [err|[files2 file]] eqn:Ec; [discriminate|].
  destruct (yaml.Marshal t) as [err|pretty] eqn:Ep; [discriminate|].
  destruct (os.Write files2 file pretty) as [[[files3 file'] n] err] eqn:Ew.
  intros [= <-]. exists files1, files2, file, pretty. rewrite Ew. auto.
Qed.

Lemma Write_stores_payload (t : Tombstone) (w w' : World) (pretty : string) :
  Write t w = (w', None) ->
  dropped_error t w = None ->
  yaml.Marshal t = inr pretty ->
  os.ReadFile (fs w') (Path t) = inr pretty.
Proof.
  intros Hw Hd Hp.
  destruct (Write_success t w w' Hw) as (files1 & files2 & file & pretty' & Hm & Hc & Hp' & ->).
  assert (pretty' = pretty) as -> by congruence.
  unfold dropped_error in Hd. rewrite Hm, Hc, Hp in Hd.
  destruct (os.Write files2 file pretty) as [[[files3 file'] n] err] eqn:Ew.
  cbn [snd] in Hd. subst err.
  exact (Create_Write_ReadFile files1 files2 files3 (Path t) pretty file file' n Hc Ew).
Qed.

End ReadWriteFacts.

Section TombstoneFacts.

(** A [Write] in which no call failed, then [Read]. *)
Lemma Write_Read (t : Tombstone) (w w' : World) :
  well_formed t = true ->
  Write t w = (w', None) ->
  dropped_error t w = None ->
  Read w' (Graveyard t) (Name t) = inr (with_identity t (Graveyard t) (Name t)).
Proof.
  intros Hwf Hw Hroom.
  destruct (Write_success t w w' Hw) as (_ & _ & _ & pretty & _ & _ & Hp & _).
  pose proof (Write_stores_payload t w w' pretty Hw Hroom Hp) as Hr.
  unfold Read.
  change (Path {| Born := None; Died := None; ExitCode := None;
                  Graveyard := Graveyard t; Name := Name t |}) with (Path t).
  rewrite Hr, (Unmarshal_Marshal t pretty _ _ Hwf Hp). reflexivity.
Qed.



Lemma RecordBirth_result (t t' : Tombstone) (w w' : World) (err : option error) :
  RecordBirth t w = (t', w', err) ->
  t' = set_Born t (now w) /\
  exists e, Write t' (Printf w ("Creating tombstone: " +:+ Path t' +:+
                                String text.newline EmptyString)) = (w', e) /\
            (e = None <-> err = None).
Proof.
  unfold RecordBirth.
  destruct (Write _ _) as [w0 [e|]] eqn:Ew; intros [= <- <- <-];
    (split; [reflexivity|]); eexists; (split; [exact Ew|]); split; congruence.
Qed.

Lemma RecordDeath_result (t t' : Tombstone) (code : Z) (w w' : World) (err : option error) :
  RecordDeath t code w = (t', w', err) ->
  t' = set_ExitCode (set_Died t (now w)) code /\
  exists e, Write t' (Printf w ("Updating tombstone: " +:+ Path t' +:+
                                String text.newline EmptyString)) = (w', e) /\
            (e = None <-> err = None).
Proof.
  unfold RecordDeath.
  destruct (Write _ _) as [w0 [e|]] eqn:Ew; intros [= <- <- <-];
    (split; [reflexivity|]); eexists; (split; [exact Ew|]); split; congruence.
Qed.


End TombstoneFacts.



(** Claim C10 (the record is changed before it is persisted).  When
    [RecordBirth] returns an error the record it leaves has [Born] set to
    the time of the call, and when [RecordDeath] returns an error the
    record it leaves has [Died] set to the time of the call and [ExitCode]
    set to the given code; the other fields are as they were. *)
Theorem recording_mutates_before_persisting :
  (forall (t t' : Tombstone) (w w' : World) (err : error),
      RecordBirth t w = (t', w', Some err) ->
      Born t' = Some (now w) /\ Died t' = Died t /\ ExitCode t' = ExitCode t) /\
  (forall (t t' : Tombstone) (exitCode : Z) (w w' : World) (err : error),
      RecordDeath t exitCode w = (t', w', Some err) ->
      Died t' = Some (now w) /\ ExitCode t' = Some exitCode /\ Born t' = Born t).
Proof.
  split.
  - intros t t' w w' err H. apply RecordBirth_result in H as (-> & _). cbn. auto.
  - intros t t' code w w' err H. apply RecordDeath_result in H as (-> & _). cbn. auto.
Qed.

Section ReadFailureFacts.

Lemma has_prefix_app (p s : string) : has_prefix p (p +:+ s) = true.
Proof.
  induction p as [|c p IH]; [reflexivity|].
  change (String c p +:+ s) with (String c (p +:+ s)).
  cbn [has_prefix]. rewrite Ascii.eqb_refl, IH. reflexivity.
Qed.

Lemma classify_read (err : error) :
  classify ("failed to read tombstone file: " +:+ err) = Some FileUnreadable.
Proof. unfold classify. rewrite has_prefix_app. reflexivity. Qed.

Lemma classify_unmarshal (err : error) :
  classify ("failed to unmarshal tombstone yaml: " +:+ err) = Some ContentMalformed.
Proof.
  unfold classify. rewrite (has_prefix_app "failed to unmarshal tombstone yaml: ").
  reflexivity.
Qed.

Lemma resolve_fails (files : os.FileSystem) (op op' path : string) (err : error) :
  os.resolve files op path = inl err -> exists err', os.resolve files op' path = inl err'.
Proof.
  unfold os.resolve. destruct (String.eqb path EmptyString); [eauto|].
  destruct (os.walk _ _ _); [eauto|discriminate].
Qed.

Lemma resolve_same (files : os.FileSystem) (op op' path : string) (key : list string) :
  os.resolve files op path = inr key -> os.resolve files op' path = inr key.
Proof.
  unfold os.resolve. destruct (String.eqb path EmptyString); [discriminate|].
  destruct (os.walk _ _ _); [discriminate|trivial].
Qed.

(** A path that [Stat] cannot find cannot be read. *)
Lemma ReadFile_missing (files : os.FileSystem) (path : string) (err : error) :
  os.Stat files path = inl err -> exists err', os.ReadFile files path = inl err'.
Proof.
  unfold os.Stat, os.ReadFile.
  destruct (os.resolve files "stat" path) as [e|key] eqn:Er.
  - destruct (resolve_fails files "stat" "open" path e Er) as [e' ->]. eauto.
  - rewrite (resolve_same files "stat" "open" path key Er).
    destruct (os.node_at files key) as [n|]; [discriminate|]. eauto.
Qed.

End ReadFailureFacts.

(** Claim C7 (a missing file is an error, and the two failures differ).
    When the path of the tombstone names nothing, [Read] returns an
    error, not a record, and the error is classified as an unreadable
    file.  When the file can be read and its content cannot be
    unmarshalled, [Read] returns an error that is classified as
    malformed content. *)
Theorem Read_failure_modes (w : World) (graveyard name : string) (missing : error) :
  os.Stat (fs w) (filepath.Join [graveyard; name]) = inl missing ->
  (exists err, Read w graveyard name = inl err /\ classify err = Some FileUnreadable) /\
  (forall (w' : World) (bytes : string) (malformed : error),
      os.ReadFile (fs w') (filepath.Join [graveyard; name]) = inr bytes ->
      yaml.Unmarshal bytes (unborn graveyard name) = inl malformed ->
      exists err, Read w' graveyard name = inl err /\ classify err = Some ContentMalformed).
Proof.
  intros Hs. split.
  - destruct (ReadFile_missing _ _ _ Hs) as [e He].
    unfold Read, Path. cbn [Graveyard Name]. rewrite He.
    eexists. split; [reflexivity | apply classify_read].
  - intros w' bytes malformed Hr Hu.
    unfold Read, Path. cbn [Graveyard Name]. rewrite Hr.
    change {| Born := None; Died := None; ExitCode := None;
              Graveyard := graveyard; Name := name |} with (unborn graveyard name).
    rewrite Hu. eexists. split; [reflexivity | apply classify_unmarshal].
Qed.

Section PayloadFacts.

Lemma written_keys_cons (a b : string) :
  text.forallb not_newline a = true ->
  written_keys (a +:+ String text.newline b) =
  match text.cut ":" a with
  | (key, Some _) => key :: written_keys b
  | (_, None) => written_keys b
  end.
Proof.
  intros Ha. unfold written_keys. rewrite split_line by exact Ha.
  cbn [omap list_omap]. destruct (text.cut ":" a) as [key [rest|]]; reflexivity.
Qed.

Lemma written_keys_lines_text (o : json.Object) :
  Forall good_member o -> written_keys (yaml.lines_text o) = map fst o.
Proof.
  induction o as [|m o IH]; intros Ho.
  - reflexivity.
  - inversion Ho as [|? ? Hm Ho']; subst.
    rewrite lines_text_cons, written_keys_cons by (apply line_of_one_line, Hm).
    destruct m as [k v]. destruct Hm as [Hk Hv]. cbn [fst snd] in *.
    unfold line_of. cbn [fst snd].
    change (k +:+ ": " +:+ yaml.scalar_text v)
      with (k +:+ String ":" (String " " (yaml.scalar_text v))).
    rewrite cut_key by (apply is_key_chars, Hk).
    cbn [map fst]. rewrite IH by exact Ho'. reflexivity.
Qed.

Lemma encode_with_identity (t : Tombstone) (graveyard name : string) :
  json.encode (with_identity t graveyard name) = json.encode t.
Proof. rewrite !encode_Tombstone. reflexivity. Qed.

End PayloadFacts.

(** Claim C8 (the payload).  The keys of the payload that [Write]
    serializes are, in this order, [Born], [Died] and [ExitCode], each
    one present exactly when the field is set, and nothing else; the
    payload does not depend on [Graveyard] and [Name]. *)
Theorem payload_has_only_the_set_fields (t : Tombstone) (pretty : string) :
  yaml.Marshal t = inr pretty ->
  written_keys pretty =
    (present "Born" (Born t) ++ present "Died" (Died t) ++ present "ExitCode" (ExitCode t))%list /\
  (forall graveyard name : string, yaml.Marshal (with_identity t graveyard name) = inr pretty).
Proof.
  intros Hp. split.
  - unfold yaml.Marshal in Hp.
    destruct (json.encode t) as [err|o] eqn:Eo; [discriminate|].
    assert (pretty = yaml.JSONToYAML o) as -> by congruence. clear Hp.
    rewrite encode_Tombstone in Eo. revert Eo.
    destruct t as [[b|] [d|] [c|] g n];
      cbn [Born Died ExitCode time_member int_member app present];
      repeat match goal with
             | |- context [time.MarshalJSON ?x] =>
                 let E := fresh "E" in destruct (time.MarshalJSON x) eqn:E
             end;
      try discriminate; intros Eo; injection Eo as <-;
      try reflexivity;
      match goal with
      | |- context [yaml.JSONToYAML ?o] =>
          change (yaml.JSONToYAML o) with (yaml.lines_text o);
          rewrite (written_keys_lines_text o);
          [ reflexivity
          | repeat constructor;
            solve [ eapply good_time_member; [reflexivity | eassumption]
                  | apply good_int_member; reflexivity ] ]
      end.
  - intros graveyard name. unfold yaml.Marshal in *.
    rewrite encode_with_identity. exact Hp.
Qed.

Section JsonTextFacts.











End JsonTextFacts.


(** The calls whose errors [Write] checks: each failure is returned. *)
Lemma Write_reports_failed_calls (t : Tombstone) (w : World) :
  (forall err, os.MkdirAll (fs w) (Graveyard t) = inl err ->
               snd (Write t w) = Some err) /\
  (forall files1 err,
      os.MkdirAll (fs w) (Graveyard t) = inr files1 ->
      os.Create files1 (Path t) = inl err ->
      snd (Write t w) = Some ("failed to create tombstone file: " +:+ err)) /\
  (forall files1 created_file err,
      os.MkdirAll (fs w) (Graveyard t) = inr files1 ->
      os.Create files1 (Path t) = inr created_file ->
      yaml.Marshal t = inl err ->
      snd (Write t w) = Some ("failed to marshal tombstone yaml: " +:+ err)).
Proof.
  unfold Write. repeat split.
  - intros err ->. reflexivity.
  - intros files1 err -> ->. reflexivity.
  - intros files1 [files2 file] err -> -> ->. reflexivity.
Qed.

(** The call whose error [Write] drops: once the file is created and the
    record is serialized, [Write] reports success whatever [file.Write]
    returns. *)
Lemma Write_ignores_file_write (t : Tombstone) (w : World)
    (files1 files2 : os.FileSystem) (file : os.File) (pretty : string) :
  os.MkdirAll (fs w) (Graveyard t) = inr files1 ->
  os.Create files1 (Path t) = inr (files2, file) ->
  yaml.Marshal t = inr pretty ->
  snd (Write t w) = None.
Proof.
  unfold Write. intros -> -> ->.
  destruct (os.Write files2 file pretty) as [[[files3 file'] n] err]. reflexivity.
Qed.

(** Claim C2 (every failure during [Write] is surfaced), evaluated at
    an input where the code does otherwise: on a device with five free
    bytes, [Write] of a record born at noon reports success although the
    payload has 31 bytes, [file.Write] failed for want of space, and the
    file holds the first five bytes only. *)
Theorem Write_reports_success_on_a_short_write :
  exists (w' : World) (pretty : string),
    Write born_at_noon (world_at (disk 5) noon) = (w', None) /\
    yaml.Marshal born_at_noon = inr pretty /\
    String.length pretty = 31%nat /\
    dropped_error born_at_noon (world_at (disk 5) noon)
    = Some "write /g/app: no space left on device" /\
    os.ReadFile (fs w') (Path born_at_noon) = inr "Born:".
Proof. eexists _, _. repeat split; vm_compute; reflexivity. Qed.

Section WatchFacts.
Context {H : Type}.
Variable graveyard : string.
Variable eventHandler : EventHandler H.

Local Abbreviation step := (step graveyard eventHandler).
Local Abbreviation run := (run graveyard eventHandler).

Lemma run_app (a b : list Label) (s : State H) : run (a ++ b) s = run b (run a s).
Proof. unfold tombstone.run. apply fold_left_app. Qed.

Lemma run_cons (l : Label) (rest : list Label) (s : State H) :
  run (l :: rest) s = run rest (step l s).
Proof. reflexivity. Qed.

Lemma caller_view_app (a b : list Obs) :
  caller_view (a ++ b) = (caller_view a ++ caller_view b)%list.
Proof. apply List.filter_app. Qed.

Lemma env_step_caller (l : Label) (s : State H) :
  caller (env_step l s) = caller s /\ history (env_step l s) = history s /\
  worker (env_step l s) = worker s.
Proof.
  destruct l; cbn [env_step]; auto;
    destruct (subscribed s); cbn; rewrite ?app_nil_r; auto.
Qed.

Lemma worker_step_caller (c : Choice) (s : State H) :
  caller (worker_step graveyard eventHandler c s) = caller s /\
  caller_view (history (worker_step graveyard eventHandler c s)) = caller_view (history s).
Proof.
  unfold worker_step.
  destruct (worker s); auto.
  destruct c.
  - destruct (ctx_done s); cbn; rewrite ?caller_view_app, ?app_nil_r; auto.
  - destruct (fsnotify.Events (watcher s)) as [|e q].
    + destruct (fsnotify.closed (watcher s)); cbn; rewrite ?caller_view_app, ?app_nil_r; auto.
    + destruct (eventHandler e (world s) (handler_state s)) as [[w h] err].
      cbn. rewrite caller_view_app, app_nil_r. auto.
  - destruct (fsnotify.Errors (watcher s)) as [|e q].
    + destruct (fsnotify.closed (watcher s)); cbn; rewrite ?caller_view_app, ?app_nil_r; auto.
    + cbn. rewrite app_nil_r. auto.
Qed.

Ltac use_view s :=
  rewrite ?caller_view_app;
  match goal with
  | E : _ = caller_view (history s) |- _ => rewrite <- E
  end;
  cbn [caller_view List.filter by_caller app].

Lemma caller_step_trace (s : State H) :
  caller_trace graveyard (caller s) (caller_view (history s)) ->
  caller_trace graveyard (caller (caller_step graveyard eventHandler s))
    (caller_view (history (caller_step graveyard eventHandler s))).
Proof.
  intros Hinv. unfold caller_step.
  destruct (caller s) as [| | | |files|r] eqn:Epc.
  - inversion Hinv.
    destruct (instances s); cbn [caller history ret]; use_view s; constructor.
  - inversion Hinv. cbn [caller history]. use_view s. constructor.
  - inversion Hinv.
    destruct (fsnotify.Add _ _ _); cbn [caller history ret]; use_view s; constructor.
  - inversion Hinv.
    destruct (os.ReadDir (fs (world s)) graveyard) as [err|files] eqn:Er;
      cbn [caller history ret]; use_view s.
    + constructor.
    + apply (at_range graveyard (fs (world s)) [] files). exact Er.
  - inversion Hinv as [| | | | | | |snapshot done rest Er E1 E2| |]. subst rest.
    destruct files as [|f rest].
    + cbn [caller history ret]. use_view s.
      rewrite app_nil_r in *.
      apply bootstrap_done. exact Er.
    + destruct (eventHandler _ _ _) as [[w h] [e|]]; cbn [caller history ret];
        use_view s.
      * apply (handler_failed graveyard snapshot done f rest e Er).
      * replace (done ++ f :: rest)%list with ((done ++ [f]) ++ rest)%list in *
          by (rewrite <- app_assoc; reflexivity).
        replace (map (delivered graveyard) done ++ [Handled CallerThread (bootstrap_event graveyard f) None])%list
          with (map (delivered graveyard) (done ++ [f]))
          by (rewrite map_app; reflexivity).
        apply at_range. exact Er.
  - rewrite Epc. exact Hinv.
Qed.

Lemma step_trace (l : Label) (s : State H) :
  caller_trace graveyard (caller s) (caller_view (history s)) ->
  caller_trace graveyard (caller (step l s)) (caller_view (history (step l s))).
Proof.
  intros Hinv.
  destruct l; cbn [tombstone.step];
    try match goal with
        | |- context [env_step ?l s] =>
            destruct (env_step_caller l s) as (-> & -> & _); exact Hinv
        end.
  - apply caller_step_trace, Hinv.
  - destruct (worker_step_caller c s) as [-> ->]. exact Hinv.
Qed.

(** What the caller's thread has seen always matches where it stands. *)
Lemma run_trace (schedule : list Label) : forall s : State H,
  caller_trace graveyard (caller s) (caller_view (history s)) ->
  caller_trace graveyard (caller (run schedule s)) (caller_view (history (run schedule s))).
Proof.
  induction schedule as [|l rest IH]; intros s Hinv; [exact Hinv|].
  rewrite run_cons. apply IH, step_trace, Hinv.
Qed.

Lemma call_trace (w : World) (h : H) (done : bool) (n : nat) :
  caller_trace graveyard (caller (call w h done n)) (caller_view (history (call w h done n))).
Proof. constructor. Qed.

End WatchFacts.

Section ReadDirFacts.

Lemma entry_of_Some (key k : list string) (n : os.Node) (info : os.FileInfo) :
  os.entry_of key (k, n) = Some info <->
  k = (key ++ [os.Name info])%list /\ os.IsDir info = os.is_dir n.
Proof.
  unfold os.entry_of. cbn [fst snd]. split.
  - destruct (last k) as [name|] eqn:El; [|discriminate].
    destruct (decide _) as [->|]; [|discriminate]. intros [= <-]. auto.
  - intros [-> Hd]. rewrite last_snoc.
    rewrite decide_True by reflexivity. destruct info as [name isdir].
    cbn in *. rewrite Hd. reflexivity.
Qed.

Lemma entries_names (files : os.FileSystem) (key : list string) (name : string) :
  name ∈ os.Name <$> os.entries files key <->
  is_Some (os.nodes files !! (key ++ [name])%list).
Proof.
  unfold os.entries.
  rewrite list_elem_of_fmap. split.
  - intros (info & -> & Hin). apply list_elem_of_omap in Hin.
    destruct Hin as ([k n] & Hkn & He). apply entry_of_Some in He as [-> _].
    apply elem_of_map_to_list in Hkn. eauto.
  - intros [n Hn]. exists {| os.Name := name; os.IsDir := os.is_dir n |}.
    split; [reflexivity|]. apply list_elem_of_omap.
    exists ((key ++ [name])%list, n). split.
    + apply elem_of_map_to_list, Hn.
    + apply entry_of_Some. auto.
Qed.

Lemma NoDup_entry_names (key : list string) (l : list (list string * os.Node)) :
  NoDup (l.*1) -> NoDup (os.Name <$> omap (os.entry_of key) l).
Proof.
  induction l as [|[k n] l IH]; intros Hnd.
  - constructor.
  - rewrite fmap_cons in Hnd. apply NoDup_cons in Hnd as [Hk Hnd].
    cbn [omap list_omap]. fold (omap (os.entry_of key) l).
    destruct (os.entry_of key (k, n)) as [info|] eqn:He; [|auto].
    rewrite fmap_cons. apply NoDup_cons. split; [|auto].
    apply entry_of_Some in He as [-> _].
    intros Hin. apply Hk.
    apply list_elem_of_fmap in Hin. destruct Hin as (info' & Hname & Hin).
    apply list_elem_of_omap in Hin. destruct Hin as ([k' n'] & Hkn & He').
    apply entry_of_Some in He' as [-> _]. rewrite Hname.
    apply list_elem_of_fmap. exists ((key ++ [os.Name info'])%list, n').
    split; [reflexivity|]. exact Hkn.
Qed.

(** [ReadDir] lists every entry of the directory once. *)
Lemma ReadDir_entries (files : os.FileSystem) (dirname : string) (infos : list os.FileInfo) :
  os.ReadDir files dirname = inr infos ->
  exists key,
    os.resolve files "open" dirname = inr key /\
    NoDup (os.Name <$> infos) /\
    forall name, name ∈ os.Name <$> infos <->
                 is_Some (os.nodes files !! (key ++ [name])%list).
Proof.
  unfold os.ReadDir.
  destruct (os.resolve files "open" dirname) as [err|key]; [discriminate|].
  destruct (os.node_at files key) as [[|c]|]; try discriminate.
  intros [= <-]. exists key. split; [reflexivity|].
  assert (Hp : os.Name <$> merge_sort os.by_name (os.entries files key)
               ≡ₚ os.Name <$> os.entries files key)
    by (apply fmap_Permutation, merge_sort_Permutation).
  split.
  - rewrite Hp. apply NoDup_entry_names, NoDup_fst_map_to_list.
  - intros name. rewrite <- entries_names. rewrite Hp. reflexivity.
Qed.

End ReadDirFacts.

Section TraceFacts.

Lemma calls_of_app (who : Thread) (a b : list Obs) :
  calls_of who (a ++ b) = (calls_of who a ++ calls_of who b)%list.
Proof. apply omap_app. Qed.

Lemma calls_of_cons (who : Thread) (o : Obs) (h : list Obs) :
  calls_of who (o :: h) =
  match call_by who o with
  | Some c => c :: calls_of who h
  | None => calls_of who h
  end.
Proof. reflexivity. Qed.

Lemma caller_view_cons (o : Obs) (h : list Obs) :
  caller_view (o :: h) = if by_caller o then o :: caller_view h else caller_view h.
Proof. reflexivity. Qed.

Lemma calls_of_caller_view (h : list Obs) :
  calls_of CallerThread (caller_view h) = calls_of CallerThread h.
Proof.
  induction h as [|o h IH]; [reflexivity|].
  rewrite caller_view_cons, (calls_of_cons _ o h).
  destruct o as [| | |[] e r| |]; cbn [by_caller call_by];
    rewrite ?calls_of_cons; cbn [call_by]; rewrite IH; reflexivity.
Qed.

Lemma calls_of_delivered (graveyard : string) (files : list os.FileInfo) :
  calls_of CallerThread (map (delivered graveyard) files)
  = map (fun f => (bootstrap_event graveyard f, None)) files.
Proof.
  induction files as [|f files IH]; [reflexivity|].
  cbn [map]. rewrite calls_of_cons. cbn [delivered call_by]. rewrite IH. reflexivity.
Qed.





End TraceFacts.

Section OrderFacts.






End OrderFacts.

Section ProgressFacts.
Context {H : Type}.
Variable graveyard : string.
Variable eventHandler : EventHandler H.
Hypothesis accepts : forall event w h, snd (eventHandler event w h) = None.

Local Abbreviation run := (run graveyard eventHandler).

(** Left alone, the bootstrap loop hands each remaining entry to a
    handler that accepts it, and [Watch] returns [nil]. *)
Lemma bootstrap_loop_returns (files : list os.FileInfo) : forall s : State H,
  caller s = AtRange files ->
  let s' := run (repeat CallerStep (S (length files))) s in
  caller s' = Returned None /\
  calls_of CallerThread (history s')
  = (calls_of CallerThread (history s)
     ++ map (fun f => (bootstrap_event graveyard f, None)) files)%list.
Proof.
  induction files as [|f rest IH]; intros s Hc.
  - cbn [length repeat]. unfold tombstone.run. cbn [fold_left step].
    unfold caller_step. rewrite Hc. cbn [ret caller history].
    rewrite calls_of_app. cbn. rewrite !app_nil_r. auto.
  - change (repeat CallerStep (S (length (f :: rest))))
      with (CallerStep :: repeat CallerStep (S (length rest))).
    rewrite run_cons. cbn [step].
    assert (Hs : caller (caller_step graveyard eventHandler s) = AtRange rest /\
                 calls_of CallerThread (history (caller_step graveyard eventHandler s))
                 = (calls_of CallerThread (history s)
                    ++ [(bootstrap_event graveyard f, None)])%list).
    { unfold caller_step. rewrite Hc.
      pose proof (accepts (bootstrap_event graveyard f) (world s) (handler_state s)) as Ha.
      destruct (eventHandler (bootstrap_event graveyard f) (world s) (handler_state s))
        as [[w1 h1] err].
      cbn in Ha. subst err. cbn [caller history].
      rewrite calls_of_app. auto. }
    destruct Hs as [Hc1 Hh1].
    destruct (IH _ Hc1) as [IH1 IH2]. split; [exact IH1|].
    rewrite IH2, Hh1, <- app_assoc. reflexivity.
Qed.

(** [Watch] returns [nil] when each of its calls succeeds: a watcher can
    be had, the graveyard can be subscribed to and listed, and the
    handler accepts every event.  Undisturbed, it has then handed to the
    handler one create event for each entry of the listing. *)
Lemma Watch_returns (w : World) (h : H) (done : bool) (n : nat)
    (wt : fsnotify.Watcher) (files : list os.FileInfo) :
  fsnotify.Add (fs w) fsnotify.NewWatcher graveyard = inr wt ->
  os.ReadDir (fs w) graveyard = inr files ->
  let s' := run (repeat CallerStep (5 + length files)) (call w h done (S n)) in
  caller s' = Returned None /\
  calls_of CallerThread (history s')
  = map (fun f => (bootstrap_event graveyard f, None)) files.
Proof.
  intros Ha Hr.
  change (repeat CallerStep (5 + length files))
    with ([CallerStep; CallerStep; CallerStep; CallerStep]
          ++ repeat CallerStep (S (length files)))%list.
  rewrite run_app.
  set (s4 := run [CallerStep; CallerStep; CallerStep; CallerStep] (call w h done (S n))).
  assert (Hs : caller s4 = AtRange files /\ calls_of CallerThread (history s4) = []).
  { subst s4. unfold fsnotify.Add in Ha. cbn in Ha.
    destruct (os.Stat (fs w) graveyard) eqn:Es; [discriminate Ha|].
    unfold tombstone.run. cbn. rewrite Es.
    unfold caller_step. cbn [caller world]. rewrite Hr. cbn. auto. }
  destruct Hs as [Hc Hh].
  destruct (bootstrap_loop_returns files s4 Hc) as [R1 R2].
  split; [exact R1|]. rewrite R2, Hh. reflexivity.
Qed.

End ProgressFacts.



Section WorkerFacts.
Context {H : Type}.
Variable graveyard : string.
Variable eventHandler : EventHandler H.

Local Abbreviation step := (step graveyard eventHandler).
Local Abbreviation run := (run graveyard eventHandler).




End WorkerFacts.







(** Claim C7 at a graveyard that holds no tombstone. *)
Lemma Read_failure_modes_witness :
  os.Stat (disk 100) (filepath.Join ["/g"; "app"])
  = inl "stat /g/app: no such file or directory" /\
  exists err, Read (world_at (disk 100) noon) "/g" "app" = inl err /\
              classify err = Some FileUnreadable.
Proof.
  split; [vm_compute; reflexivity|].
  apply (Read_failure_modes (world_at (disk 100) noon) "/g" "app"
           "stat /g/app: no such file or directory").
  vm_compute. reflexivity.
Defined.

(** Claim C8 at a record born at noon. *)
Lemma payload_has_only_the_set_fields_witness :
  yaml.Marshal born_at_noon
  = inr (yaml.JSONToYAML [("Born", json.Str "2020-04-20T12:00:00.5Z")]) /\
  written_keys (yaml.JSONToYAML [("Born", json.Str "2020-04-20T12:00:00.5Z")]) = ["Born"].
Proof.
  split; [vm_compute; reflexivity|].
  apply (payload_has_only_the_set_fields born_at_noon). vm_compute. reflexivity.
Defined.

(** Claim C10 at a tombstone whose graveyard cannot be created. *)
Lemma recording_mutates_before_persisting_witness :
  snd (RecordBirth misplaced (world_at two_tombstones noon))
  = Some "failed to create tombstone: mkdir /g/a/x: not a directory" /\
  Born (fst (fst (RecordBirth misplaced (world_at two_tombstones noon)))) = Some noon /\
  snd (RecordDeath misplaced 3 (world_at two_tombstones noon))
  = Some "failed to update tombstone: mkdir /g/a/x: not a directory" /\
  Died (fst (fst (RecordDeath misplaced 3 (world_at two_tombstones noon)))) = Some noon /\
  ExitCode (fst (fst (RecordDeath misplaced 3 (world_at two_tombstones noon)))) = Some 3.
Proof.
  split; [vm_compute; reflexivity|].
  split.
  { apply (proj1 recording_mutates_before_persisting misplaced _ (world_at two_tombstones noon)
             (snd (fst (RecordBirth misplaced (world_at two_tombstones noon))))
             "failed to create tombstone: mkdir /g/a/x: not a directory").
    vm_compute. reflexivity. }
  split; [vm_compute; reflexivity|].
  destruct (proj2 recording_mutates_before_persisting misplaced
              (fst (fst (RecordDeath misplaced 3 (world_at two_tombstones noon)))) 3
              (world_at two_tombstones noon)
              (snd (fst (RecordDeath misplaced 3 (world_at two_tombstones noon))))
              "failed to update tombstone: mkdir /g/a/x: not a directory")
    as (Hd & He & _); [vm_compute; reflexivity|].
  split; assumption.
Defined.




(** The second failure of [Read] occurs: a tombstone that holds a word
    where the exit code should be. *)
Example malformed_content_is_told_apart :
  exists err, Read (world_at garbled noon) "/g" "app" = inl err /\
              classify err = Some ContentMalformed.
Proof. eexists. split; vm_compute; reflexivity. Qed.

(** [RecordDeath] succeeds on a record without a birth. *)
Example death_without_birth_is_recorded :
  snd (RecordDeath (unborn "/g" "app") 0 (world_at (disk 100) later)) = None.
Proof. vm_compute. reflexivity. Qed.

(** ** Further properties of the package *)

Section LoggingFacts.

Lemma has_known_bit (op flag : N) :
  N.land op 31 = 0%N -> N.land flag 31 = flag -> flag <> 0%N ->
  fsnotify.has op flag = false.
Proof.
  intros Hop Hf Hnz. unfold fsnotify.has. apply N.eqb_neq. intros E.
  apply Hnz. rewrite <- Hf, <- E, <- N.land_assoc, (N.land_comm flag), N.land_assoc, Hop.
  apply N.land_0_l.
Qed.

End LoggingFacts.

(** X1 ([LoggingEventHandler]).  The handler never fails and changes
    nothing but the log: it appends one line for each of the operations
    create, remove, write, rename and chmod that the event carries, in
    that order, each naming the event's path.  An event that carries none
    of the five is logged as nothing at all. *)
Theorem LoggingEventHandler_logs_each_operation
    (event : fsnotify.Event) (w : World) (h : unit) :
  LoggingEventHandler event w h
  = ({| fs := fs w; now := now w; logger := (logger w ++ logged_lines event)%list |}, h, None) /\
  (length (logged_lines event) <= 5)%nat /\
  (N.land (fsnotify.Op event) 31 = 0%N -> LoggingEventHandler event w h = (w, h, None)).
Proof.
  assert (E : LoggingEventHandler event w h
              = ({| fs := fs w; now := now w;
                    logger := (logger w ++ logged_lines event)%list |}, h, None)).
  { unfold LoggingEventHandler, logged_lines, logged_ops, log_if, Printf, log.Printf.
    cbn [List.filter fst snd].
    destruct (fsnotify.has (fsnotify.Op event) fsnotify.Create),
             (fsnotify.has (fsnotify.Op event) fsnotify.Remove),
             (fsnotify.has (fsnotify.Op event) fsnotify.Write),
             (fsnotify.has (fsnotify.Op event) fsnotify.Rename),
             (fsnotify.has (fsnotify.Op event) fsnotify.Chmod);
      cbn [fs now logger map fst snd]; rewrite <- ?app_assoc; cbn [app];
      rewrite ?app_nil_r; destruct w; reflexivity. }
  split; [exact E|]. split.
  - unfold logged_lines. rewrite length_map.
    etransitivity; [apply List.filter_length_le|]. reflexivity.
  - intros Hop. rewrite E. unfold logged_lines, logged_ops. cbn [List.filter fst].
    rewrite !has_known_bit by (try exact Hop; try reflexivity; discriminate).
    cbn. rewrite app_nil_r. destruct w; reflexivity.
Qed.

(** X1 at an event that carries a create and a chmod, and at one that
    carries none of the five operations. *)
Lemma LoggingEventHandler_logs_each_operation_witness :
  logged_lines {| fsnotify.Name := "/g/a"; fsnotify.Op := 17 |}
  = ["Tombstone Watch: file created: /g/a" +:+ String text.newline EmptyString;
     "Tombstone Watch: file chmoded: /g/a" +:+ String text.newline EmptyString] /\
  LoggingEventHandler {| fsnotify.Name := "/g/a"; fsnotify.Op := 32 |} (world_at (disk 100) noon) tt
  = (world_at (disk 100) noon, tt, None).
Proof.
  split; [vm_compute; reflexivity|].
  apply (LoggingEventHandler_logs_each_operation
           {| fsnotify.Name := "/g/a"; fsnotify.Op := 32 |} (world_at (disk 100) noon) tt).
  reflexivity.
Defined.

Section QueueFacts.
Context {H : Type}.
Variable graveyard : string.
Variable eventHandler : EventHandler H.

Local Abbreviation step := (step graveyard eventHandler).
Local Abbreviation run := (run graveyard eventHandler).

Lemma calls_of_snoc (who : Thread) (h : list Obs) (o : Obs) :
  calls_of who (h ++ [o]) = (calls_of who h ++ from_option (fun c => [c]) [] (call_by who o))%list.
Proof. rewrite calls_of_app. cbn. destruct (call_by who o); reflexivity. Qed.

Lemma run_snoc (schedule : list Label) (l : Label) (s : State H) :
  run (schedule ++ [l]) s = step l (run schedule s).
Proof. rewrite run_app. reflexivity. Qed.

Lemma notified_snoc (schedule : list Label) (l : Label) :
  notified (schedule ++ [l]) = (notified schedule ++ notified [l])%list.
Proof. apply omap_app. Qed.

(** A step of the caller's thread takes no notification up. *)
Lemma caller_step_taken_up (s : State H) :
  taken_up (caller_step graveyard eventHandler s) `sublist_of` taken_up s.
Proof.
  unfold taken_up, caller_step.
  destruct (caller s) as [| | | |[|f rest]|r].
  - destruct (instances s); cbn [history watcher ret fsnotify.Events fsnotify.NewWatcher].
    + rewrite calls_of_snoc. cbn. rewrite ?app_nil_r. reflexivity.
    + rewrite app_nil_r. apply sublist_inserts_r. reflexivity.
  - cbn [history watcher]. rewrite calls_of_snoc. cbn. rewrite ?app_nil_r. reflexivity.
  - unfold fsnotify.Add. destruct (fsnotify.closed (watcher s)).
    + cbn [history watcher ret]. rewrite calls_of_snoc. cbn. rewrite ?app_nil_r. reflexivity.
    + destruct (os.Stat _ _); cbn [history watcher ret fsnotify.Events];
        rewrite calls_of_snoc; cbn; rewrite ?app_nil_r; reflexivity.
  - destruct (os.ReadDir _ _); cbn [history watcher ret];
      rewrite calls_of_snoc; cbn; rewrite ?app_nil_r; reflexivity.
  - cbn [history watcher ret]. rewrite calls_of_snoc. cbn. rewrite ?app_nil_r. reflexivity.
  - destruct (eventHandler _ _ _) as [[w h] [e|]]; cbn [history watcher ret];
      rewrite ?calls_of_snoc; cbn; rewrite ?app_nil_r; reflexivity.
  - reflexivity.
Qed.

(** A round of the worker moves the oldest pending notification to the
    handler, or moves nothing. *)
Lemma worker_step_taken_up (c : Choice) (s : State H) :
  taken_up (worker_step graveyard eventHandler c s) = taken_up s.
Proof.
  unfold taken_up, worker_step.
  destruct (worker s); try reflexivity.
  destruct c.
  - destruct (ctx_done s); [|reflexivity].
    cbn [history watcher worker_return fsnotify.Close fsnotify.Events].
    rewrite calls_of_snoc. cbn. rewrite ?app_nil_r. reflexivity.
  - destruct (fsnotify.Events (watcher s)) as [|event events] eqn:Ee.
    + destruct (fsnotify.closed (watcher s)); [|rewrite Ee; reflexivity].
      cbn [history watcher worker_return fsnotify.Close fsnotify.Events].
      rewrite calls_of_snoc, Ee. cbn. rewrite ?app_nil_r. reflexivity.
    + destruct (eventHandler _ _ _) as [[w h] err].
      cbn [history watcher with_queues fsnotify.Events].
      rewrite calls_of_snoc. cbn. rewrite map_app, <- app_assoc. reflexivity.
  - destruct (fsnotify.Errors (watcher s)) as [|err errors].
    + destruct (fsnotify.closed (watcher s)); [|reflexivity].
      cbn [history watcher worker_return fsnotify.Close fsnotify.Events].
      rewrite calls_of_snoc. cbn. rewrite ?app_nil_r. reflexivity.
    + cbn [history watcher with_queues fsnotify.Events]. rewrite app_nil_r. reflexivity.
Qed.

Lemma step_taken_up (l : Label) (s : State H) :
  taken_up (step l s) `sublist_of` (taken_up s ++ notified [l])%list.
Proof.
  destruct l; cbn [tombstone.step env_step notified omap];
    rewrite ?app_nil_r; try reflexivity.
  - apply caller_step_taken_up.
  - rewrite worker_step_taken_up. reflexivity.
  - destruct (subscribed s).
    + unfold taken_up. cbn [history watcher with_queues fsnotify.Events].
      rewrite !app_nil_r, app_assoc. reflexivity.
    + apply sublist_inserts_r. reflexivity.
  - destruct (subscribed s); [|reflexivity].
    unfold taken_up. cbn [history watcher with_queues fsnotify.Events].
    rewrite app_nil_r. reflexivity.
Qed.

End QueueFacts.

(** X2 (the worker and the notifications).  In every run of [Watch],
    under every schedule, the notifications that the worker has handed to
    the handler, followed by those it still has pending, are among the
    notifications the watcher reported and stand in the order in which
    they were reported: the worker hands no notification to the handler
    twice, invents none and swaps none. *)
Theorem worker_takes_notifications_in_order
    {H : Type} (graveyard : string) (eventHandler : EventHandler H)
    (w : World) (h : H) (done : bool) (free_instances : nat) (schedule : list Label) :
  let s := run graveyard eventHandler schedule (call w h done free_instances) in
  taken_up s `sublist_of` notified schedule /\
  map fst (calls_of WorkerThread (history s)) `sublist_of` notified schedule.
Proof.
  intros s.
  assert (Hs : taken_up s `sublist_of` notified schedule).
  { subst s. induction schedule as [|l schedule IH] using rev_ind; [reflexivity|].
    rewrite run_snoc, notified_snoc.
    etransitivity; [apply step_taken_up|].
    apply sublist_app; [exact IH | reflexivity]. }
  split; [exact Hs|].
  etransitivity; [|exact Hs]. unfold taken_up. apply sublist_inserts_r. reflexivity.
Qed.

Section WorkerLoopFacts.
Context {H : Type}.
Variable graveyard : string.
Variable eventHandler : EventHandler H.

Local Abbreviation step := (step graveyard eventHandler).
Local Abbreviation run := (run graveyard eventHandler).

(** What a round of the worker adds to the history. *)
Lemma worker_step_history (c : Choice) (s : State H) :
  caller (worker_step graveyard eventHandler c s) = caller s /\
  (worker s = NotStarted \/ worker s = Exited -> worker_step graveyard eventHandler c s = s) /\
  exists extra,
    history (worker_step graveyard eventHandler c s) = (history s ++ extra)%list /\
    calls_of CallerThread extra = [] /\ ~ In Spawned extra.
Proof.
  unfold worker_step. split; [|split].
  - apply worker_step_caller.
  - intros [-> | ->]; reflexivity.
  - destruct (worker s); try (exists []; rewrite app_nil_r; cbn; tauto).
    destruct c.
    + destruct (ctx_done s); [|exists []; rewrite app_nil_r; cbn; tauto].
      exists [WorkerExit]. cbn. intuition discriminate.
    + destruct (fsnotify.Events (watcher s)) as [|event events].
      * destruct (fsnotify.closed (watcher s)); [|exists []; rewrite app_nil_r; cbn; tauto].
        exists [WorkerExit]. cbn. intuition discriminate.
      * destruct (eventHandler _ _ _) as [[w h] err].
        exists [Handled WorkerThread event err]. cbn. intuition discriminate.
    + destruct (fsnotify.Errors (watcher s)) as [|err errors].
      * destruct (fsnotify.closed (watcher s)); [|exists []; rewrite app_nil_r; cbn; tauto].
        exists [WorkerExit]. cbn. intuition discriminate.
      * exists []. cbn. rewrite app_nil_r. tauto.
Qed.

Lemma calls_of_CallerThread_worker_step (c : Choice) (s : State H) :
  calls_of CallerThread (history (worker_step graveyard eventHandler c s))
  = calls_of CallerThread (history s).
Proof.
  destruct (worker_step_history c s) as (_ & _ & extra & -> & He & _).
  rewrite calls_of_app, He, app_nil_r. reflexivity.
Qed.

Lemma failure_trace_worker_step (f : WatchFailure) (c : Choice) (s : State H) :
  failure_trace f s -> failure_trace f (worker_step graveyard eventHandler c s).
Proof.
  destruct (worker_step_history c s) as (_ & Hidle & extra & Hh & He & _).
  destruct f; cbn [failure_trace].
  - intros [Hw Hs]. rewrite Hidle by auto. auto.
  - intros [Hs Hc]. rewrite Hh, calls_of_app, He, app_nil_r. split; [apply in_or_app|]; auto.
  - intros [Hs Hc]. rewrite Hh, calls_of_app, He, app_nil_r. split; [apply in_or_app|]; auto.
  - intros [Hs Hc]. rewrite Hh, calls_of_app, He, app_nil_r. split; [apply in_or_app|]; auto.
Qed.

Lemma failure_trace_env_step (f : WatchFailure) (l : Label) (s : State H) :
  failure_trace f s -> failure_trace f (env_step l s).
Proof.
  destruct (env_step_caller l s) as (_ & Hh & Hw).
  destruct f; cbn [failure_trace]; rewrite Hh, ?Hw; auto.
Qed.

Lemma watch_progress_caller_step (s : State H) :
  watch_progress s -> watch_progress (caller_step graveyard eventHandler s).
Proof.
  unfold watch_progress, caller_step.
  destruct (caller s) as [| | | |[|f rest]|r] eqn:Epc.
  - intros [Hw Hh]. destruct (instances s); cbn [caller ret history worker].
    + exists (NoWatcher "too many open files"). split; [reflexivity|].
      cbn [failure_trace ret worker history]. rewrite Hh. auto.
    + auto.
  - intros [Hw Hh]. cbn [caller history]. split; [apply in_or_app; cbn; auto|].
    rewrite Hh. reflexivity.
  - intros [Hs Hc]. destruct (fsnotify.Add _ _ _) as [err|wt]; cbn [caller ret history].
    + exists (NotSubscribed err). split; [reflexivity|].
      cbn [failure_trace ret history]. rewrite calls_of_app, Hc.
      split; [apply in_or_app; auto | reflexivity].
    + rewrite calls_of_app, Hc. split; [apply in_or_app; auto | reflexivity].
  - intros [Hs Hc]. destruct (os.ReadDir _ _) as [err|files]; cbn [caller ret history].
    + exists (NotListed err). split; [reflexivity|].
      cbn [failure_trace ret history]. rewrite calls_of_app, Hc.
      split; [apply in_or_app; auto | reflexivity].
    + apply in_or_app; auto.
  - intros Hs. cbn [caller ret]. exact I.
  - intros Hs. destruct (eventHandler _ _ _) as [[w h] [e|]]; cbn [caller ret history].
    + exists (HandlerFailed (bootstrap_event graveyard f) e). split; [reflexivity|].
      cbn [failure_trace ret history]. split; [do 2 (apply in_or_app; left); exact Hs|].
      rewrite !calls_of_app. cbn. rewrite app_nil_r. apply last_snoc.
    + apply in_or_app; auto.
  - rewrite Epc. auto.
Qed.

Lemma watch_progress_env_step (l : Label) (s : State H) :
  watch_progress s -> watch_progress (env_step l s).
Proof.
  unfold watch_progress.
  destruct (env_step_caller l s) as (Hc & Hh & Hw). rewrite Hc, Hh, Hw.
  destruct (caller s) as [| | | | |[err|]]; auto.
  intros (f & -> & Ht). exists f. split; [reflexivity|].
  apply failure_trace_env_step, Ht.
Qed.

Lemma watch_progress_step (l : Label) (s : State H) :
  watch_progress s -> watch_progress (step l s).
Proof.
  destruct l; cbn [tombstone.step]; try apply watch_progress_env_step.
  - apply watch_progress_caller_step.
  - unfold watch_progress.
    destruct (worker_step_history c s) as (Hc & Hidle & extra & Hh & He & Hs).
    rewrite Hc. destruct (caller s) as [| | | | |[err|]].
    + intros [Hw Hn]. rewrite Hidle by auto. auto.
    + intros [Hw Hn]. rewrite Hidle by auto. auto.
    + intros [H1 H2]. rewrite Hh, calls_of_app, He, app_nil_r.
      split; [apply in_or_app|]; auto.
    + intros [H1 H2]. rewrite Hh, calls_of_app, He, app_nil_r.
      split; [apply in_or_app|]; auto.
    + intros H1. rewrite Hh. apply in_or_app; auto.
    + intros (f & -> & Ht). exists f. split; [reflexivity|].
      apply failure_trace_worker_step, Ht.
    + auto.
Qed.

Lemma watch_progress_run (schedule : list Label) : forall s : State H,
  watch_progress s -> watch_progress (run schedule s).
Proof.
  induction schedule as [|l rest IH]; intros s Hs; [exact Hs|].
  rewrite run_cons. apply IH, watch_progress_step, Hs.
Qed.

Lemma watch_progress_call (w : World) (h : H) (done : bool) (n : nat) :
  watch_progress (call w h done n).
Proof. split; reflexivity. Qed.

(** Once the worker has left its loop it hands nothing to the handler. *)
Lemma exited_is_final (more : list Label) : forall s : State H,
  worker s = Exited -> before_spawn (caller s) = false ->
  worker (run more s) = Exited /\
  calls_of WorkerThread (history (run more s)) = calls_of WorkerThread (history s).
Proof.
  induction more as [|l rest IH]; intros s Hw Hb; [auto|].
  rewrite run_cons.
  assert (Hs : worker (step l s) = Exited /\ before_spawn (caller (step l s)) = false /\
               calls_of WorkerThread (history (step l s))
               = calls_of WorkerThread (history s)).
  { destruct l; cbn [tombstone.step];
      try match goal with
          | |- context [env_step ?l s] =>
              destruct (env_step_caller l s) as (-> & -> & ->); auto
          end.
    - unfold caller_step.
      destruct (caller s) as [| | | |[|f rest']|r] eqn:Epc; try discriminate Hb.
      + destruct (fsnotify.Add _ _ _); cbn [worker caller ret history before_spawn];
          rewrite calls_of_app; cbn; rewrite app_nil_r; auto.
      + destruct (os.ReadDir _ _); cbn [worker caller ret history before_spawn];
          rewrite calls_of_app; cbn; rewrite app_nil_r; auto.
      + cbn [worker caller ret history before_spawn].
        rewrite calls_of_app; cbn; rewrite app_nil_r; auto.
      + destruct (eventHandler _ _ _) as [[w h] [e|]];
          cbn [worker caller ret history before_spawn];
          rewrite ?calls_of_app; cbn; rewrite ?app_nil_r; auto.
      + rewrite Epc. auto.
    - destruct (worker_step_history c s) as (Hc & Hidle & _).
      rewrite Hidle by auto. auto. }
  destruct Hs as (Hw1 & Hb1 & Hc1).
  destruct (IH _ Hw1 Hb1) as [IH1 IH2]. split; [exact IH1|]. congruence.
Qed.

Lemma undisturbed_step (l : Label) (s : State H) :
  l <> Cancel -> l <> ChannelsClosed -> undisturbed s -> undisturbed (step l s).
Proof.
  unfold undisturbed. intros Hl1 Hl2 (Hd & Hcl & Hw & Hs).
  destruct l; cbn [tombstone.step env_step]; try congruence.
  - unfold caller_step.
    destruct (caller s) as [| | | |[|f rest]|r].
    + destruct (instances s); cbn [ctx_done watcher worker history ret fsnotify.closed
                                     fsnotify.NewWatcher];
        rewrite ?in_app_iff; cbn [In]; intuition congruence.
    + cbn [ctx_done watcher worker history].
      rewrite ?in_app_iff; cbn [In]; intuition congruence.
    + unfold fsnotify.Add. rewrite Hcl.
      destruct (os.Stat _ _);
        cbn [ctx_done watcher worker history ret fsnotify.closed];
        rewrite ?in_app_iff; cbn [In]; intuition congruence.
    + destruct (os.ReadDir _ _);
        cbn [ctx_done watcher worker history ret];
        rewrite ?in_app_iff; cbn [In]; intuition congruence.
    + cbn [ctx_done watcher worker history ret].
      rewrite ?in_app_iff; cbn [In]; intuition congruence.
    + destruct (eventHandler _ _ _) as [[w h] [e|]];
        cbn [ctx_done watcher worker history ret];
        rewrite ?in_app_iff; cbn [In]; intuition congruence.
    + auto.
  - unfold worker_step. destruct (worker s) eqn:Ew; try (rewrite Ew; tauto).
    destruct c.
    + rewrite Hd, Ew. tauto.
    + destruct (fsnotify.Events (watcher s)) as [|event events].
      * rewrite Hcl, Ew. tauto.
      * destruct (eventHandler _ _ _) as [[w h] err].
        cbn [ctx_done watcher worker history with_queues fsnotify.closed].
        rewrite Ew. intuition congruence.
    + destruct (fsnotify.Errors (watcher s)) as [|err errors].
      * rewrite Hcl, Ew. tauto.
      * cbn [ctx_done watcher worker history with_queues fsnotify.closed].
        rewrite Ew. intuition congruence.
  - destruct (subscribed s); [|tauto].
    cbn [ctx_done watcher worker history with_queues fsnotify.closed].
    rewrite app_nil_r. tauto.
  - destruct (subscribed s); [|tauto].
    cbn [ctx_done watcher worker history with_queues fsnotify.closed].
    rewrite app_nil_r. tauto.
  - cbn [ctx_done watcher worker history]. tauto.
  - cbn [ctx_done watcher worker history]. tauto.
Qed.

Lemma undisturbed_run (schedule : list Label) : forall s : State H,
  ~ In Cancel schedule -> ~ In ChannelsClosed schedule ->
  undisturbed s -> undisturbed (run schedule s).
Proof.
  induction schedule as [|l rest IH]; intros s H1 H2 Hs; [exact Hs|].
  rewrite run_cons. apply IH.
  - intros Hin. apply H1. right. exact Hin.
  - intros Hin. apply H2. right. exact Hin.
  - apply undisturbed_step; [intros ->; apply H1| intros ->; apply H2|exact Hs]; left; reflexivity.
Qed.

(** The steps other threads take leave the caller's thread where it
    is, and each step of its own brings the bootstrap loop nearer its
    end. *)
Lemma bootstrap_left_step (l : Label) (s : State H) :
  before_spawn (caller s) = false -> caller s <> AtAdd -> caller s <> AtReadDir ->
  before_spawn (caller (step l s)) = false /\
  caller (step l s) <> AtAdd /\ caller (step l s) <> AtReadDir /\
  (bootstrap_left (caller (step l s))
   <= bootstrap_left (caller s) - caller_steps [l])%nat.
Proof.
  intros Hb Ha Hr.
  destruct l; cbn [tombstone.step caller_steps List.filter length];
    try match goal with
        | |- context [env_step ?l s] =>
            destruct (env_step_caller l s) as (-> & _ & _);
            rewrite Nat.sub_0_r; auto
        end.
  - unfold caller_step.
    destruct (caller s) as [| | | |[|f rest]|r] eqn:Epc; try discriminate Hb; try congruence.
    + cbn [caller ret bootstrap_left before_spawn].
      repeat split; try congruence. lia.
    + destruct (eventHandler _ _ _) as [[w h] [e|]];
        cbn [caller ret bootstrap_left before_spawn length];
        repeat split; try congruence; lia.
    + rewrite Epc. cbn [bootstrap_left before_spawn]. repeat split; try congruence. lia.
  - destruct (worker_step_history c s) as (-> & _). rewrite Nat.sub_0_r. auto.
Qed.

Lemma bootstrap_left_run (more : list Label) : forall s : State H,
  before_spawn (caller s) = false -> caller s <> AtAdd -> caller s <> AtReadDir ->
  before_spawn (caller (run more s)) = false /\
  caller (run more s) <> AtAdd /\ caller (run more s) <> AtReadDir /\
  (bootstrap_left (caller (run more s))
   <= bootstrap_left (caller s) - caller_steps more)%nat.
Proof.
  induction more as [|l rest IH]; intros s Hb Ha Hr.
  - cbn. repeat split; auto. lia.
  - rewrite run_cons.
    destruct (bootstrap_left_step l s Hb Ha Hr) as (Hb1 & Ha1 & Hr1 & Hle).
    destruct (IH _ Hb1 Ha1 Hr1) as (Hb2 & Ha2 & Hr2 & Hle2).
    repeat split; auto.
    assert (E : caller_steps (l :: rest) = (caller_steps [l] + caller_steps rest)%nat).
    { unfold caller_steps. cbn [List.filter]. destruct l; reflexivity. }
    rewrite E. lia.
Qed.

End WorkerLoopFacts.

(** X3 (errors of the watcher).  The worker writes each error that the
    watcher reports to the log, in the order reported, and does nothing
    else with it: the handler is not called, the caller's thread is where
    it was, the pending notifications are untouched and the worker stays
    in its loop. *)
Theorem worker_logs_watcher_errors
    {H : Type} (graveyard : string) (eventHandler : EventHandler H)
    (errors : list error) : forall s : State H,
  worker s = Selecting ->
  fsnotify.Errors (watcher s) = errors ->
  let s' := run graveyard eventHandler (repeat (WorkerStep SelError) (length errors)) s in
  logger (world s') = (logger (world s) ++ map (watcher_error_line graveyard) errors)%list /\
  fs (world s') = fs (world s) /\
  history s' = history s /\ handler_state s' = handler_state s /\
  worker s' = Selecting /\ caller s' = caller s /\
  fsnotify.Errors (watcher s') = [] /\
  fsnotify.Events (watcher s') = fsnotify.Events (watcher s).
Proof.
  induction errors as [|err errors IH]; intros s Hw He.
  - cbn. rewrite app_nil_r. auto 10.
  - cbn [length repeat]. rewrite run_cons.
    set (s1 := step graveyard eventHandler (WorkerStep SelError) s).
    assert (Hs : logger (world s1) = (logger (world s) ++ [watcher_error_line graveyard err])%list /\
                 fs (world s1) = fs (world s) /\
                 history s1 = history s /\ handler_state s1 = handler_state s /\
                 worker s1 = Selecting /\ caller s1 = caller s /\
                 fsnotify.Errors (watcher s1) = errors /\
                 fsnotify.Events (watcher s1) = fsnotify.Events (watcher s)).
    { subst s1. cbn [step]. unfold worker_step. rewrite Hw, He.
      cbn. rewrite app_nil_r. auto 10. }
    destruct Hs as (L1 & F1 & H1 & S1 & W1 & C1 & E1 & V1).
    destruct (IH s1 W1 E1) as (L2 & F2 & H2 & S2 & W2 & C2 & E2 & V2).
    repeat split; try congruence.
    rewrite L2, L1, <- app_assoc. reflexivity.
Qed.

(** X3 at a worker to which the watcher has reported two errors. *)
Lemma worker_logs_watcher_errors_witness :
  worker two_errors = Selecting /\
  fsnotify.Errors (watcher two_errors) = ["overflow"; "short read"] /\
  let s' := run "/g" accepting (repeat (WorkerStep SelError) 2) two_errors in
  logger (world s')
  = ["Tombstone Watch(/g): error from fsnotify: overflow" +:+ String text.newline EmptyString;
     "Tombstone Watch(/g): error from fsnotify: short read" +:+ String text.newline EmptyString] /\
  history s' = history two_errors.
Proof.
  split; [vm_compute; reflexivity|]. split; [vm_compute; reflexivity|].
  destruct (worker_logs_watcher_errors "/g" accepting ["overflow"; "short read"] two_errors)
    as (Hl & _ & Hh & _); try (vm_compute; reflexivity).
  split; [exact Hl | exact Hh].
Defined.

(** X4 (cancellation).  When the worker of a run of [Watch] finds the
    context cancelled it logs that it is done, closes the watcher and
    leaves its loop.  However the run goes on, the worker then hands
    nothing more to the handler: the notifications that were pending are
    never handled. *)
Theorem worker_stops_when_the_context_is_cancelled
    {H : Type} (graveyard : string) (eventHandler : EventHandler H)
    (w : World) (h : H) (done : bool) (free_instances : nat) (schedule : list Label) :
  let s := run graveyard eventHandler schedule (call w h done free_instances) in
  worker s = Selecting ->
  ctx_done s = true ->
  let s1 := step graveyard eventHandler (WorkerStep SelDone) s in
  world s1 = Printf (world s) (done_line graveyard) /\
  worker s1 = Exited /\ caller s1 = caller s /\
  fsnotify.closed (watcher s1) = true /\
  fsnotify.Events (watcher s1) = fsnotify.Events (watcher s) /\
  forall more : list Label,
    worker (run graveyard eventHandler more s1) = Exited /\
    calls_of WorkerThread (history (run graveyard eventHandler more s1))
    = calls_of WorkerThread (history s).
Proof.
  intros s Hw Hd s1.
  assert (Hb : before_spawn (caller s) = false).
  { pose proof (watch_progress_run graveyard eventHandler schedule _
                  (watch_progress_call w h done free_instances)) as Hp.
    fold s in Hp. unfold watch_progress in Hp.
    destruct (caller s); try reflexivity; destruct Hp as [Hp _]; congruence. }
  assert (Hs : world s1 = Printf (world s) (done_line graveyard) /\
               worker s1 = Exited /\ caller s1 = caller s /\
               fsnotify.closed (watcher s1) = true /\
               fsnotify.Events (watcher s1) = fsnotify.Events (watcher s) /\
               history s1 = (history s ++ [WorkerExit])%list).
  { subst s1. cbn [step]. unfold worker_step. rewrite Hw, Hd. cbn. auto 10. }
  destruct Hs as (S1 & S2 & S3 & S4 & S5 & S6).
  repeat split; try assumption;
    destruct (exited_is_final graveyard eventHandler more s1 S2) as [E1 E2];
    try congruence.
  rewrite E2, S6, calls_of_app. cbn. apply app_nil_r.
Qed.

(** X4 at a worker with two notifications pending when the context is
    cancelled. *)
Lemma worker_stops_when_the_context_is_cancelled_witness :
  let s := run "/g" failing
             [CallerStep; CallerStep; CallerStep;
              Notify (created "/g/a"); Notify (created "/g/b"); Cancel] watch_two in
  fsnotify.Events (watcher s) = [created "/g/a"; created "/g/b"] /\
  forall more : list Label,
    calls_of WorkerThread
      (history (run "/g" failing more (step "/g" failing (WorkerStep SelDone) s))) = [].
Proof.
  intros s. split; [vm_compute; reflexivity|].
  intros more.
  destruct (worker_stops_when_the_context_is_cancelled "/g" failing
              (world_at two_tombstones noon) tt false 1
              [CallerStep; CallerStep; CallerStep;
               Notify (created "/g/a"); Notify (created "/g/b"); Cancel])
    as (_ & _ & _ & _ & _ & Hm); try (vm_compute; reflexivity).
  destruct (Hm more) as [_ Hc]. exact Hc.
Defined.

(** X5 (the worker outlives [Watch]).  In a run of [Watch] in which the
    context is not cancelled and nothing closes the watcher, the worker,
    once started, stays in its loop and the watcher stays open, whatever
    [Watch] returns: a failure of [Watch] after the [go] statement leaves
    the worker running. *)
Theorem worker_outlives_Watch
    {H : Type} (graveyard : string) (eventHandler : EventHandler H)
    (w : World) (h : H) (free_instances : nat) (schedule : list Label) :
  ~ In Cancel schedule ->
  ~ In ChannelsClosed schedule ->
  let s := run graveyard eventHandler schedule (call w h false free_instances) in
  worker s <> Exited /\ fsnotify.closed (watcher s) = false /\
  (In Spawned (history s) -> worker s = Selecting) /\
  (forall err, caller s = Returned (Some err) ->
               (exists e, err = failure_message (NoWatcher e)) \/ worker s = Selecting).
Proof.
  intros H1 H2 s.
  assert (Hu : undisturbed s).
  { apply undisturbed_run; try assumption.
    unfold undisturbed, call. cbn. repeat split; auto; try discriminate. intros []. }
  destruct Hu as (_ & Hc & Hw & Hs).
  repeat split; try assumption.
  intros err Hr.
  pose proof (watch_progress_run graveyard eventHandler schedule _
                (watch_progress_call w h false free_instances)) as Hp.
  fold s in Hp. unfold watch_progress in Hp. rewrite Hr in Hp.
  destruct Hp as ([e|e|e|event e] & -> & Ht); cbn [failure_trace] in Ht.
  - left. exists e. reflexivity.
  - right. apply Hs, Ht.
  - right. apply Hs, Ht.
  - right. apply Hs, Ht.
Qed.

(** X5 at a graveyard that cannot be listed. *)
Lemma worker_outlives_Watch_witness :
  let s := run "/g" accepting (repeat CallerStep 4) (call (world_at no_graveyard noon) tt false 1) in
  caller s = Returned (Some "failed to read graveyard dir: readdirent /g: not a directory") /\
  worker s = Selecting /\ fsnotify.closed (watcher s) = false.
Proof.
  intros s. split; [vm_compute; reflexivity|].
  destruct (worker_outlives_Watch "/g" accepting (world_at no_graveyard noon) tt 1
              (repeat CallerStep 4))
    as (_ & Hc & Hs & _).
  - cbn. intuition discriminate.
  - cbn. intuition discriminate.
  - split; [|exact Hc]. apply Hs. vm_compute. auto.
Defined.

(** X6 (the failures of [Watch]).  In every run, under every schedule,
    an error that [Watch] returns is one of four.  When no watcher could
    be had, no worker was started and nothing else happened.  When the
    graveyard could not be subscribed to or could not be listed, the
    worker had been started and [Watch] has called the handler for no
    entry.  Otherwise the error carries the message of the error that
    the handler returned for the last bootstrap event it was given. *)
Theorem Watch_fails_in_four_ways
    {H : Type} (graveyard : string) (eventHandler : EventHandler H)
    (w : World) (h : H) (done : bool) (free_instances : nat) (schedule : list Label)
    (err : error) :
  let s := run graveyard eventHandler schedule (call w h done free_instances) in
  caller s = Returned (Some err) ->
  exists f : WatchFailure, err = failure_message f /\ failure_trace f s.
Proof.
  intros s Hr.
  pose proof (watch_progress_run graveyard eventHandler schedule _
                (watch_progress_call w h done free_instances)) as Hp.
  fold s in Hp. unfold watch_progress in Hp. rewrite Hr in Hp. exact Hp.
Qed.

(** X6 at a run in which the handler fails on the first tombstone. *)
Lemma Watch_fails_in_four_ways_witness :
  exists f : WatchFailure,
    "failed handling existing tombstone: boom" = failure_message f /\
    failure_trace f (run "/g" failing (repeat CallerStep 5) watch_two).
Proof.
  apply (Watch_fails_in_four_ways "/g" failing (world_at two_tombstones noon) tt false 1
           (repeat CallerStep 5) "failed handling existing tombstone: boom").
  vm_compute. reflexivity.
Defined.

Section CallerRunFacts.
Context {H : Type}.
Variable graveyard : string.
Variable eventHandler : EventHandler H.

(** The caller's thread neither cancels the context nor stops the
    worker. *)
Lemma caller_steps_keep_worker (k : nat) : forall s : State H,
  worker s = Selecting ->
  worker (run graveyard eventHandler (repeat CallerStep k) s) = Selecting /\
  ctx_done (run graveyard eventHandler (repeat CallerStep k) s) = ctx_done s.
Proof.
  induction k as [|k IH]; intros s Hw; [auto|].
  cbn [repeat]. rewrite run_cons. cbn [step].
  assert (Hs : worker (caller_step graveyard eventHandler s) = Selecting /\
               ctx_done (caller_step graveyard eventHandler s) = ctx_done s).
  { unfold caller_step. destruct (caller s) as [| | | |[|f rest]|r]; auto.
    - destruct (instances s); auto.
    - destruct (fsnotify.Add _ _ _); auto.
    - destruct (os.ReadDir _ _); auto.
    - destruct (eventHandler _ _ _) as [[w h] [e|]]; auto. }
  destruct Hs as [Hw1 Hd1]. destruct (IH _ Hw1) as [IH1 IH2].
  split; [exact IH1 | congruence].
Qed.

End CallerRunFacts.

(** X7 ([Watch] on a context that is already cancelled).  What [Watch]
    returns then depends on which thread moves first.  When the worker
    finds the context cancelled before the caller's thread subscribes, it
    closes the watcher, and [Watch] fails to subscribe and delivers no
    bootstrap event.  When the caller's thread is left to run first,
    [Watch] delivers every bootstrap event and returns [nil], the
    cancelled context notwithstanding, and the worker stops afterwards. *)
Theorem Watch_on_a_cancelled_context
    {H : Type} (graveyard : string) (eventHandler : EventHandler H)
    (w : World) (h : H) (n : nat) :
  (let s := run graveyard eventHandler
              [CallerStep; CallerStep; WorkerStep SelDone; CallerStep]
              (call w h true (S n)) in
   caller s = Returned (Some "failed to add watcher: inotify instance already closed") /\
   worker s = Exited /\
   calls_of CallerThread (history s) = [] /\
   world s = Printf w (done_line graveyard)) /\
  (forall (wt : fsnotify.Watcher) (files : list os.FileInfo),
      (forall event w' h', snd (eventHandler event w' h') = None) ->
      fsnotify.Add (fs w) fsnotify.NewWatcher graveyard = inr wt ->
      os.ReadDir (fs w) graveyard = inr files ->
      let s := run graveyard eventHandler
                 (repeat CallerStep (5 + length files) ++ [WorkerStep SelDone])
                 (call w h true (S n)) in
      caller s = Returned None /\
      worker s = Exited /\
      calls_of CallerThread (history s)
      = map (fun f => (bootstrap_event graveyard f, None)) files).
Proof.
  split.
  - cbn. auto.
  - intros wt files Hacc Ha Hr s.
    destruct (Watch_returns graveyard eventHandler Hacc w h true n wt files Ha Hr)
      as [Hc Hcalls].
    set (s0 := run graveyard eventHandler (repeat CallerStep (5 + length files))
                 (call w h true (S n))) in *.
    assert (Hw : worker s0 = Selecting /\ ctx_done s0 = true).
    { subst s0.
      change (repeat CallerStep (5 + length files))
        with ([CallerStep; CallerStep] ++ repeat CallerStep (3 + length files))%list.
      rewrite run_app.
      apply (caller_steps_keep_worker graveyard eventHandler (3 + length files)).
      reflexivity. }
    destruct Hw as [Hw Hd].
    assert (Es : s = step graveyard eventHandler (WorkerStep SelDone) s0)
      by (subst s s0; rewrite run_app; reflexivity).
    rewrite Es. cbn [step]. unfold worker_step. rewrite Hw, Hd.
    cbn [caller worker history worker_return]. repeat split; try assumption.
    rewrite calls_of_app, Hcalls. cbn. apply app_nil_r.
Qed.

(** X7 at a graveyard that holds two tombstones. *)
Lemma Watch_on_a_cancelled_context_witness :
  let early := run "/g" accepting [CallerStep; CallerStep; WorkerStep SelDone; CallerStep]
                 (call (world_at two_tombstones noon) tt true 1) in
  let late := run "/g" accepting (repeat CallerStep 7 ++ [WorkerStep SelDone])
                (call (world_at two_tombstones noon) tt true 1) in
  caller early = Returned (Some "failed to add watcher: inotify instance already closed") /\
  caller late = Returned None /\
  calls_of CallerThread (history late) = [(created "/g/a", None); (created "/g/b", None)].
Proof.
  intros early late.
  pose proof (Watch_on_a_cancelled_context "/g" accepting (world_at two_tombstones noon) tt 0)
    as [[He _] Hl].
  split; [exact He|].
  destruct (Hl {| fsnotify.Events := []; fsnotify.Errors := [];
                  fsnotify.watches := ["/g"]; fsnotify.closed := false |}
               [tombstone_file "a"; tombstone_file "b"])
    as (Hc & _ & Hcalls);
    [intros; reflexivity | vm_compute; reflexivity | vm_compute; reflexivity |].
  split; [exact Hc | exact Hcalls].
Defined.

(** X8 (the bootstrap loop ends).  Once the caller's thread has listed
    the graveyard, [Watch] returns after at most one step of that thread
    for each listed entry and one more, whatever the worker and the
    environment do in between: files that appear in the graveyard
    during the bootstrap do not prolong it. *)
Theorem bootstrap_is_bounded_by_the_listing
    {H : Type} (graveyard : string) (eventHandler : EventHandler H)
    (s : State H) (files : list os.FileInfo) (more : list Label) :
  caller s = AtRange files ->
  (length files < caller_steps more)%nat ->
  exists r : option error, caller (run graveyard eventHandler more s) = Returned r.
Proof.
  intros Hc Hlen.
  destruct (bootstrap_left_run graveyard eventHandler more s) as (Hb & Ha & Hr & Hle);
    try (rewrite Hc; try reflexivity; discriminate).
  rewrite Hc in Hle. cbn [bootstrap_left] in Hle.
  destruct (caller (run graveyard eventHandler more s)) as [| | | |rest|r];
    try discriminate Hb; try congruence.
  - cbn [bootstrap_left] in Hle. lia.
  - exists r. reflexivity.
Qed.

(** X8 at a bootstrap over two tombstones during which a third file is
    created and reported. *)
Lemma bootstrap_is_bounded_by_the_listing_witness :
  caller (run "/g" accepting (repeat CallerStep 4) watch_two)
  = AtRange [tombstone_file "a"; tombstone_file "b"] /\
  exists r : option error,
    caller (run "/g" accepting
              [CallerStep; Outside (creates "/g/c"); Notify (created "/g/c");
               CallerStep; WorkerStep SelEvent; CallerStep]
              (run "/g" accepting (repeat CallerStep 4) watch_two)) = Returned r.
Proof.
  split; [vm_compute; reflexivity|].
  apply (bootstrap_is_bounded_by_the_listing "/g" accepting _
           [tombstone_file "a"; tombstone_file "b"]).
  - vm_compute. reflexivity.
  - vm_compute. lia.
Defined.

Section ListingFacts.

Lemma by_name_total : Total os.by_name.
Proof. intros a b. unfold os.by_name. apply total. apply _. Qed.

Lemma by_name_trans : Transitive os.by_name.
Proof. intros a b c. unfold os.by_name. apply transitivity. Qed.

(** A listing is in the order of the names. *)
Lemma ReadDir_sorted (files : os.FileSystem) (dirname : string) (infos : list os.FileInfo) :
  os.ReadDir files dirname = inr infos -> StronglySorted os.by_name infos.
Proof.
  unfold os.ReadDir. destruct (os.resolve _ _ _) as [err|key]; [discriminate|].
  destruct (os.node_at _ _) as [[|content]|]; try discriminate.
  intros [= <-].
  apply (@StronglySorted_merge_sort _ os.by_name _ by_name_trans by_name_total).
Qed.

End ListingFacts.

(** X9 (the order of the bootstrap).  In every run of [Watch] that has
    returned without error, the bootstrap events were handed to the
    handler in the ascending order of the names of the entries. *)
Theorem bootstrap_is_in_name_order
    {H : Type} (graveyard : string) (eventHandler : EventHandler H)
    (w : World) (h : H) (done : bool) (free_instances : nat) (schedule : list Label) :
  let s := run graveyard eventHandler schedule (call w h done free_instances) in
  caller s = Returned None ->
  exists files : list os.FileInfo,
    calls_of CallerThread (history s)
    = map (fun f => (bootstrap_event graveyard f, None)) files /\
    StronglySorted os.by_name files /\
    NoDup (os.Name <$> files).
Proof.
  intros s Hret. subst s.
  pose proof (run_trace graveyard eventHandler schedule _
                (call_trace graveyard w h done free_instances)) as Ht.
  rewrite Hret in Ht.
  inversion Ht as [| | | | | | | | |snapshot files Er].
  match goal with E : _ = caller_view _ |- _ => rename E into Ev end.
  exists files. split; [|split].
  - rewrite <- calls_of_caller_view, <- Ev.
    rewrite !calls_of_cons. cbn [call_by].
    rewrite calls_of_app, calls_of_delivered. cbn. apply app_nil_r.
  - eapply ReadDir_sorted, Er.
  - destruct (ReadDir_entries snapshot graveyard files Er) as (key & _ & Hnd & _). exact Hnd.
Qed.

(** X9 at an undisturbed run over two tombstones. *)
Lemma bootstrap_is_in_name_order_witness :
  exists files : list os.FileInfo,
    calls_of CallerThread (history (run "/g" accepting (repeat CallerStep 7) watch_two))
    = map (fun f => (bootstrap_event "/g" f, None)) files /\
    StronglySorted os.by_name files /\
    NoDup (os.Name <$> files).
Proof.
  apply (bootstrap_is_in_name_order "/g" accepting (world_at two_tombstones noon) tt false 1
           (repeat CallerStep 7)).
  vm_compute. reflexivity.
Defined.

Section DirectoryFacts.

Lemma node_at_insert_Dir (files : os.FileSystem) (key other : list string) (n : os.Node) :
  os.node_at files key = None ->
  os.node_at files other = Some n ->
  os.node_at (os.with_nodes files (<[key := os.Dir]> (os.nodes files))) other = Some n.
Proof.
  intros Hk Ho. destruct other as [|x other]; [exact Ho|].
  cbn [os.node_at os.with_nodes os.nodes] in *.
  rewrite lookup_insert_ne; [exact Ho|]. intros ->.
  cbn [os.node_at] in Hk. congruence.
Qed.

(** [MkdirAll] keeps every node there is. *)
Lemma mkdir_along_keeps (elems : list string) : forall (files files' : os.FileSystem)
    (cur other : list string) (n : os.Node),
  os.mkdir_along files cur elems = inr files' ->
  os.node_at files other = Some n ->
  os.node_at files' other = Some n.
Proof.
  induction elems as [|e elems IH]; intros files files' cur other n; cbn [os.mkdir_along].
  - intros [= <-]. trivial.
  - destruct (os.node_at files (os.enter cur e)) as [[|c]|] eqn:E; try discriminate.
    + apply IH.
    + intros Hm Ho. eapply IH; [exact Hm|]. apply node_at_insert_Dir; assumption.
Qed.

Lemma mkdir_along_cwd (elems : list string) : forall (files files' : os.FileSystem)
    (cur : list string),
  os.mkdir_along files cur elems = inr files' -> os.cwd files' = os.cwd files.
Proof.
  induction elems as [|e elems IH]; intros files files' cur; cbn [os.mkdir_along].
  - intros [= <-]. reflexivity.
  - destruct (os.node_at files (os.enter cur e)) as [[|c]|]; try discriminate.
    + apply IH.
    + intros Hm. apply IH in Hm. exact Hm.
Qed.

(** After [MkdirAll] the path leads to a directory. *)
Lemma mkdir_along_walk (elems : list string) : forall (files files' : os.FileSystem)
    (cur : list string),
  os.node_at files cur = Some os.Dir ->
  os.mkdir_along files cur elems = inr files' ->
  exists key, os.walk files' cur elems = inr key /\ os.node_at files' key = Some os.Dir.
Proof.
  induction elems as [|e elems IH]; intros files files' cur Hc; cbn [os.mkdir_along os.walk].
  - intros [= <-]. exists cur. auto.
  - destruct (os.node_at files (os.enter cur e)) as [[|c]|] eqn:E; try discriminate.
    + intros Hm. rewrite (mkdir_along_keeps _ _ _ _ _ _ Hm Hc).
      apply (IH _ _ _ E Hm).
    + intros Hm.
      assert (Hc' : os.node_at (os.with_nodes files (<[os.enter cur e := os.Dir]> (os.nodes files)))
                      cur = Some os.Dir)
        by (apply node_at_insert_Dir; assumption).
      rewrite (mkdir_along_keeps _ _ _ _ _ _ Hm Hc').
      refine (IH _ _ _ _ Hm).
      destruct (os.enter cur e) as [|x k] eqn:Ek; [reflexivity|].
      cbn [os.node_at os.with_nodes os.nodes]. apply lookup_insert_eq.
Qed.

Lemma MkdirAll_Stat (files files' : os.FileSystem) (path : string) :
  os.node_at files (os.cwd files) = Some os.Dir ->
  os.MkdirAll files path = inr files' ->
  os.Stat files' path = inr os.Dir /\
  os.node_at files' (os.cwd files') = Some os.Dir.
Proof.
  unfold os.MkdirAll, os.Stat, os.resolve. intros Hcwd.
  destruct (String.eqb path EmptyString); [discriminate|].
  destruct (os.mkdir_along _ _ _) as [err|fs1] eqn:Em; [discriminate|]. intros [= <-].
  assert (Hs : os.node_at files (os.start_of files path) = Some os.Dir)
    by (unfold os.start_of; destruct (filepath.IsAbs path); [reflexivity | exact Hcwd]).
  destruct (mkdir_along_walk _ _ _ _ Hs Em) as (key & Hw & Hk).
  assert (Ec : os.cwd fs1 = os.cwd files) by (eapply mkdir_along_cwd, Em).
  change (os.start_of fs1 path) with (if filepath.IsAbs path then [] else os.cwd fs1).
  rewrite Ec. change (if filepath.IsAbs path then [] else os.cwd files)
    with (os.start_of files path).
  rewrite Hw, Hk. split; [reflexivity|].
  eapply mkdir_along_keeps; [exact Em | exact Hcwd].
Qed.

Lemma has_prefix_take (n : nat) : forall b : string, has_prefix (os.take n b) b = true.
Proof.
  unfold os.take. induction n as [|n IH]; intros [|c b]; try reflexivity.
  cbn. rewrite Ascii.eqb_refl. apply IH.
Qed.

(** What [os.Create] returns and leaves. *)
Lemma Create_shape (files files2 : os.FileSystem) (path : string) (file : os.File) :
  os.Create files path = inr (files2, file) ->
  exists key room,
    os.resolve files "open" path = inr key /\
    os.node_at files key <> Some os.Dir /\
    files2 = store files key EmptyString room /\
    file = {| os.name := path; os.node := key; os.offset := 0 |}.
Proof.
  unfold os.Create. destruct (os.resolve files "open" path) as [err|key]; [discriminate|].
  intros Hc. exists key.
  destruct (os.node_at files key) as [[|old]|] eqn:E; try discriminate;
    injection Hc as <- <-; eexists; (split; [reflexivity|]);
    (split; [congruence|]); split; reflexivity.
Qed.

(** What [File.Write] leaves in a file that was just created: the part
    of the bytes for which the device had room. *)
Lemma Write_shape (files : os.FileSystem) (path : string) (key : list string)
    (room : nat) (b : string) :
  exists n room',
    os.Write (store files key EmptyString room)
      {| os.name := path; os.node := key; os.offset := 0 |} b
    = (store files key (os.take n b) room',
       {| os.name := path; os.node := key; os.offset := n |}, n,
       if (n <? String.length b)%nat then Some (os.PathError "write" path os.ENOSPC)
       else None).
Proof.
  unfold os.Write. cbn [os.node os.offset os.name store os.nodes os.free os.cwd].
  rewrite lookup_insert_eq. cbn [String.length].
  eexists _, _. rewrite take_zero, drop_empty. cbn [String.append].
  rewrite append_empty_r, insert_insert_eq. reflexivity.
Qed.

Lemma Stat_store (files : os.FileSystem) (path : string) (key : list string)
    (content : string) (room : nat) (n : os.Node) :
  os.node_at files key <> Some os.Dir ->
  os.Stat files path = inr n -> n = os.Dir ->
  os.Stat (store files key content room) path = inr os.Dir.
Proof.
  unfold os.Stat. intros Hk.
  destruct (os.resolve files "stat" path) as [err|res] eqn:Er; [discriminate|].
  rewrite (resolve_store _ _ _ key res _ _ Hk Er).
  destruct (os.node_at files res) as [m|] eqn:En; [|discriminate].
  intros [= <-] ->.
  rewrite node_at_store by (intros ->; congruence). rewrite En. reflexivity.
Qed.

Lemma ReadFile_store (files : os.FileSystem) (path : string) (key : list string)
    (content : string) (room : nat) :
  os.node_at files key <> Some os.Dir ->
  os.resolve files "open" path = inr key ->
  os.ReadFile (store files key content room) path = inr content /\
  os.Stat (store files key content room) path = inr (os.Regular content).
Proof.
  intros Hk Er.
  assert (Hne : key <> []) by (intros ->; apply Hk; reflexivity).
  unfold os.ReadFile, os.Stat.
  rewrite (resolve_store _ _ _ key key _ _ Hk Er).
  rewrite (resolve_store _ _ _ key key _ _ Hk (resolve_same _ _ "stat" _ _ Er)).
  destruct key as [|x key]; [congruence|].
  cbn [os.node_at store os.nodes]. rewrite lookup_insert_eq. auto.
Qed.

End DirectoryFacts.

(** X10 (what [Write] leaves).  After a [Write] that reports success,
    in a file system whose working directory exists, the graveyard is a
    directory, whether it was there before or not, and the tombstone is
    a regular file that holds a prefix of the serialized record,
    whatever it held before; it holds all of it when the [file.Write]
    did not fail. *)
Theorem Write_leaves_the_graveyard_and_the_file (t : Tombstone) (w w' : World) :
  os.node_at (fs w) (os.cwd (fs w)) = Some os.Dir ->
  Write t w = (w', None) ->
  os.Stat (fs w') (Graveyard t) = inr os.Dir /\
  exists pretty content : string,
    yaml.Marshal t = inr pretty /\
    os.Stat (fs w') (Path t) = inr (os.Regular content) /\
    os.ReadFile (fs w') (Path t) = inr content /\
    has_prefix content pretty = true /\
    (dropped_error t w = None -> content = pretty) /\
    logger w' = logger w /\ now w' = now w.
Proof.
  intros Hcwd Hw.
  destruct (Write_success t w w' Hw) as (files1 & files2 & file & pretty & Hm & Hc & Hp & ->).
  destruct (MkdirAll_Stat _ _ _ Hcwd Hm) as [Hg _].
  destruct (Create_shape _ _ _ _ Hc) as (key & room & Hr & Hk & -> & ->).
  destruct (Write_shape files1 (Path t) key room pretty) as (n & room' & Ew).
  assert (Hd : dropped_error t w
               = if (n <? String.length pretty)%nat
                 then Some (os.PathError "write" (Path t) os.ENOSPC) else None).
  { unfold dropped_error. rewrite Hm, Hc, Hp, Ew. reflexivity. }
  rewrite Ew. cbn [fst snd fs with_fs os.Close logger now].
  split; [eapply Stat_store; [exact Hk | exact Hg | reflexivity]|].
  destruct (ReadFile_store files1 (Path t) key (os.take n pretty) room' Hk Hr) as [Hread Hstat].
  exists pretty, (os.take n pretty). repeat split; try assumption.
  - apply has_prefix_take.
  - rewrite Hd. destruct (n <? String.length pretty)%nat eqn:Short; [discriminate|].
    intros _. apply Nat.ltb_ge in Short.
    unfold os.take. clear -Short. revert n Short.
    induction pretty as [|c p IH]; intros [|n] Hn; cbn in *; try reflexivity; try lia.
    rewrite IH by lia. reflexivity.
Qed.

(** X10 at a graveyard two levels deep on an empty device. *)
Lemma Write_leaves_the_graveyard_and_the_file_witness :
  os.Stat bare "/var/run/graveyard"
  = inl "stat /var/run/graveyard: no such file or directory" /\
  snd (Write deep (world_at bare noon)) = None /\
  os.Stat (fs (fst (Write deep (world_at bare noon)))) "/var/run/graveyard" = inr os.Dir.
Proof.
  split; [vm_compute; reflexivity|]. split; [vm_compute; reflexivity|].
  apply (Write_leaves_the_graveyard_and_the_file deep (world_at bare noon)
           (fst (Write deep (world_at bare noon)))).
  - reflexivity.
  - vm_compute. reflexivity.
Defined.

Section SerializationFacts.




(** [Write] changes nothing but the file system. *)
Lemma Write_frame (t : Tombstone) (w : World) :
  logger (fst (Write t w)) = logger w /\ now (fst (Write t w)) = now w.
Proof.
  unfold Write.
  destruct (os.MkdirAll _ _); [auto|].
  destruct (os.Create _ _) as [|[files2 file]]; [auto|].
  destruct (yaml.Marshal t); [auto|].
  destruct (os.Write _ _ _) as [[[files3 file'] n] err]. auto.
Qed.

Lemma blank_has_no_lines (content : string) :
  text.forallb is_newline content = true ->
  filter (fun l => l ≠ EmptyString) (text.split text.newline content) = [].
Proof.
  induction content as [|c content IH]; [reflexivity|].
  cbn [text.forallb text.split]. unfold is_newline at 1.
  intros [Hc Hr]%andb_prop. rewrite Hc.
  rewrite filter_cons_False by (intros Hne; apply Hne; reflexivity).
  apply IH, Hr.
Qed.

End SerializationFacts.



(** X12 (an empty graveyard).  A record whose [Graveyard] is empty
    cannot be written, whatever its name and its fields: [Write] fails in
    [MkdirAll] and leaves the world as it was, and [RecordBirth] and
    [RecordDeath] log their line and fail, although the record's path is
    then simply its name. *)
Theorem empty_graveyard_cannot_be_written
    (t : Tombstone) (name : string) (exitCode : Z) (w : World) :
  let t0 := with_identity t EmptyString name in
  Write t0 w = (w, Some "mkdir : no such file or directory") /\
  snd (RecordBirth t0 w)
  = Some "failed to create tombstone: mkdir : no such file or directory" /\
  snd (RecordDeath t0 exitCode w)
  = Some "failed to update tombstone: mkdir : no such file or directory" /\
  fs (snd (fst (RecordBirth t0 w))) = fs w /\
  fs (snd (fst (RecordDeath t0 exitCode w))) = fs w /\
  Path t0 = filepath.Join [name].
Proof. cbn. repeat split; reflexivity. Qed.

(** X13 (a blank tombstone file).  [Read] of a file that exists and is
    empty, or holds nothing but line ends, is no error: it returns a
    record with the identity of the call and no field set. *)
Theorem Read_of_a_blank_file (w : World) (graveyard name content : string) :
  os.ReadFile (fs w) (filepath.Join [graveyard; name]) = inr content ->
  text.forallb is_newline content = true ->
  Read w graveyard name = inr (unborn graveyard name).
Proof.
  intros Hr Hb. unfold Read.
  change (Path {| Born := None; Died := None; ExitCode := None;
                  Graveyard := graveyard; Name := name |})
    with (filepath.Join [graveyard; name]).
  rewrite Hr. unfold yaml.Unmarshal, yaml.YAMLToJSON.
  rewrite (blank_has_no_lines content Hb).
  destruct (decide ([] = [])) as [_|Hne]; [reflexivity | congruence].
Qed.

(** X13 at a tombstone that is an empty file. *)
Lemma Read_of_a_blank_file_witness :
  Read (world_at blank noon) "/g" "app" = inr (unborn "/g" "app").
Proof.
  apply (Read_of_a_blank_file (world_at blank noon) "/g" "app" EmptyString);
    vm_compute; reflexivity.
Defined.



(** X15 (what the recording calls log and return).  Whether or not the
    write succeeds, [RecordBirth] adds exactly one line to the log, which
    names the path of the record, and so does [RecordDeath]; neither
    touches the clock.  The error each returns is the error of [Write]
    behind a message of its own. *)
Theorem recording_logs_one_line (t : Tombstone) (exitCode : Z) (w : World) :
  logger (snd (fst (RecordBirth t w))) = (logger w ++ [birth_line t])%list /\
  logger (snd (fst (RecordDeath t exitCode w))) = (logger w ++ [death_line t])%list /\
  now (snd (fst (RecordBirth t w))) = now w /\
  now (snd (fst (RecordDeath t exitCode w))) = now w /\
  snd (RecordBirth t w)
  = wrapped "failed to create tombstone: "
      (snd (Write (set_Born t (now w)) (Printf w (birth_line t)))) /\
  snd (RecordDeath t exitCode w)
  = wrapped "failed to update tombstone: "
      (snd (Write (set_ExitCode (set_Died t (now w)) exitCode) (Printf w (death_line t)))).
Proof.
  unfold RecordBirth, RecordDeath.
  change (Path (set_Born t (now w))) with (Path t).
  change (Path (set_ExitCode (set_Died t (now w)) exitCode)) with (Path t).
  fold (birth_line t). fold (death_line t).
  pose proof (Write_frame (set_Born t (now w)) (Printf w (birth_line t))) as [L1 N1].
  pose proof (Write_frame (set_ExitCode (set_Died t (now w)) exitCode)
                (Printf w (death_line t))) as [L2 N2].
  destruct (Write (set_Born t (now w)) _) as [w1 [e1|]];
    destruct (Write (set_ExitCode _ _) _) as [w2 [e2|]];
    cbn [fst snd wrapped] in *; rewrite L1, L2, N1, N2; repeat split; reflexivity.
Qed.

Section PlaceholderFacts.



End PlaceholderFacts.


Section ReadableFacts.

Lemma take_digits_bound (width : nat) : forall (acc : Z) (s : string) (v : Z) (r : string),
  text.take_digits width acc s = Some (v, r) ->
  0 <= acc -> acc * 10 ^ Z.of_nat width <= v < (acc + 1) * 10 ^ Z.of_nat width.
Proof.
  induction width as [|width IH]; intros acc s v r; cbn [text.take_digits].
  - intros [= <- <-] Ha. cbn. lia.
  - destruct s as [|c s]; [discriminate|].
    destruct (text.is_digit c) eqn:Ec; [|discriminate].
    intros Ht Ha.
    assert (Hd : 0 <= text.digit_value c <= 9).
    { unfold text.is_digit in Ec. unfold text.digit_value.
      apply andb_prop in Ec as [E1 E2].
      apply Nat.leb_le in E1, E2. lia. }
    apply IH in Ht; [|lia]. rewrite pow10_succ.
    pose proof (pow10_pos width). nia.
Qed.

Lemma UnmarshalJSON_readable (s : string) (t : time.Time) :
  time.UnmarshalJSON s = inr t -> readable_time (Some t).
Proof.
  unfold time.UnmarshalJSON.
  destruct (time.ParseRFC3339 s) as [t'|] eqn:Ep; [|discriminate]. intros [= <-].
  unfold time.ParseRFC3339 in Ep.
  destruct (text.take_digits 4 0 s) as [[year s1]|] eqn:Ey; [|discriminate].
  cbn [mbind option_bind] in Ep.
  repeat match type of Ep with
         | context [text.expect ?c ?x] =>
             destruct (text.expect c x); cbn [mbind option_bind] in Ep; [|discriminate]
         | context [text.take_digits ?n ?a ?x] =>
             destruct (text.take_digits n a x) as [[? ?]|];
             cbn [mbind option_bind] in Ep; [|discriminate]
         end.
  destruct (time.parseNano _) as [nsec s'].
  destruct (time.parseZone s') as [offset|]; cbn [mbind option_bind] in Ep; [|discriminate].
  match type of Ep with
  | (if time.valid ?x then _ else _) = _ => destruct (time.valid x) eqn:Ev; [|discriminate]
  end.
  injection Ep as <-. split; [exact Ev|]. cbn [time.Year].
  apply take_digits_bound in Ey; [|lia]. change (10 ^ Z.of_nat 4) with 10000 in Ey. lia.
Qed.

(** Every field that decoding sets is within its ranges. *)
Lemma decode_readable (o : json.Object) : forall t t' : Tombstone,
  json.decode o t = inr t' ->
  readable_time (Born t) /\ readable_time (Died t) /\ valid_int (ExitCode t) = true ->
  readable_time (Born t') /\ readable_time (Died t') /\ valid_int (ExitCode t') = true.
Proof.
  induction o as [|[key v] o IH]; intros t t'; cbn [json.decode].
  - intros [= <-]. trivial.
  - destruct (json.find_field json.fields key) as [f|] eqn:Ef; [|apply IH].
    apply visible_fields in Ef.
    cbn [json.field_get json.field_set Tombstone_struct].
    destruct (json.decode_value _ _ v) as [err|fv] eqn:Ev; [discriminate|].
    intros Hd (Hb & Hdd & Hc). apply IH in Hd; [exact Hd|]. clear Hd IH.
    destruct Ef as [E | [E | E]]; rewrite E in *; clear E;
      [ change (get t "Born") with (json.PtrTime (Born t)) in Ev
      | change (get t "Died") with (json.PtrTime (Died t)) in Ev
      | change (get t "ExitCode") with (json.PtrInt (ExitCode t)) in Ev ];
      destruct v; cbn [json.decode_value] in Ev;
      try discriminate;
      try (injection Ev as <-; cbn; auto; fail).
    + destruct (time.UnmarshalJSON s) as [|tm] eqn:Eu; [discriminate|].
      injection Ev as <-. apply UnmarshalJSON_readable in Eu. cbn. auto.
    + destruct (time.UnmarshalJSON s) as [|tm] eqn:Eu; [discriminate|].
      injection Ev as <-. apply UnmarshalJSON_readable in Eu. cbn. auto.
    + destruct ((json.int_min <=? z) && (z <=? json.int_max)) eqn:Ez; [|discriminate].
      injection Ev as <-. cbn. auto.
Qed.

Lemma readable_writable (key : string) (p : option time.Time) :
  readable_time p -> valid_time p = true /\ exists o, time_member key p = inr o.
Proof.
  destruct p as [t|]; cbn [readable_time valid_time time_member].
  - intros [Hv Hy]. split; [exact Hv|]. unfold time.MarshalJSON.
    assert ((time.Year t <? 0) || (10000 <=? time.Year t) = false) as -> by lia.
    eauto.
  - intros _. eauto.
Qed.

End ReadableFacts.

(** X17 (what [Read] returns can be written).  Every record that [Read]
    returns holds values of the Go types of its fields, timestamps
    within their ranges with a year of four digits and an exit code
    that fits an [int], so [Write] can serialize it; and when it is
    written back with no failed call, [Read] returns it again. *)
Theorem Read_returns_a_writable_record (w : World) (graveyard name : string) (r : Tombstone) :
  Read w graveyard name = inr r ->
  well_formed r = true /\
  (exists pretty, yaml.Marshal r = inr pretty) /\
  (forall w1 w2 : World,
      Write r w1 = (w2, None) -> dropped_error r w1 = None ->
      Read w2 graveyard name = inr r).
Proof.
  intros Hr.
  destruct (Read_identity w graveyard name r Hr) as [Hg Hn].
  assert (Hread : readable_time (Born r) /\ readable_time (Died r) /\
                  valid_int (ExitCode r) = true).
  { unfold Read in Hr.
    destruct (os.ReadFile _ _) as [|bytes]; [discriminate|].
    unfold yaml.Unmarshal in Hr.
    destruct (yaml.YAMLToJSON bytes) as [|[o|]]; [discriminate| |].
    - destruct (json.decode o _) as [|t'] eqn:Ed; [discriminate|].
      injection Hr as <-. apply (decode_readable _ _ _ Ed). cbn. auto.
    - injection Hr as <-. cbn. auto. }
  destruct Hread as (Hb & Hd & Hc).
  destruct (readable_writable "Born" _ Hb) as [Vb [ob Eb]].
  destruct (readable_writable "Died" _ Hd) as [Vd [od Ed]].
  assert (Hwf : well_formed r = true)
    by (unfold well_formed; rewrite Vb, Vd, Hc; reflexivity).
  split; [exact Hwf|]. split.
  - unfold yaml.Marshal. rewrite encode_Tombstone, Eb, Ed. eauto.
  - intros w1 w2 Hw Hdrop.
    pose proof (Write_Read r w1 w2 Hwf Hw Hdrop) as Hrr.
    rewrite Hg, Hn in Hrr. rewrite Hrr. f_equal.
    destruct r. cbn in *. subst. reflexivity.
Qed.

(** X17 at a tombstone file that holds a birth. *)
Lemma Read_returns_a_writable_record_witness :
  exists r, Read (world_at buried noon) "/g" "app" = inr r /\ well_formed r = true /\
            exists pretty, yaml.Marshal r = inr pretty.
Proof.
  destruct (Read (world_at buried noon) "/g" "app") as [err|r] eqn:Er;
    [vm_compute in Er; discriminate Er|].
  exists r. split; [reflexivity|].
  destruct (Read_returns_a_writable_record (world_at buried noon) "/g" "app" r Er)
    as (Hwf & Hp & _).
  split; assumption.
Defined.

Section PathFacts.

Lemma split_nonempty (sep : ascii) (s : string) : text.split sep s <> [].
Proof.
  destruct s as [|c s]; cbn [text.split]; [discriminate|].
  destruct (Ascii.eqb c sep); [discriminate|].
  destruct (text.split sep s); discriminate.
Qed.

Lemma split_app_sep (sep : ascii) (a b : string) :
  text.split sep (a +:+ String sep b) = (text.split sep a ++ text.split sep b)%list.
Proof.
  induction a as [|c a IH].
  - change (EmptyString +:+ String sep b) with (String sep b).
    cbn [text.split app]. rewrite Ascii.eqb_refl. reflexivity.
  - change (String c a +:+ String sep b) with (String c (a +:+ String sep b)).
    cbn [text.split]. rewrite IH.
    destruct (Ascii.eqb c sep); [reflexivity|].
    pose proof (split_nonempty sep a).
    destruct (text.split sep a) as [|x xs]; [congruence|]. reflexivity.
Qed.

Lemma split_plain (e : string) :
  text.forallb no_slash e = true -> text.split "/" e = [e].
Proof.
  induction e as [|c e IH]; [reflexivity|].
  cbn [text.forallb text.split]. intros [Hc He]%andb_prop.
  unfold no_slash in Hc. apply negb_true_iff in Hc. rewrite Hc, (IH He). reflexivity.
Qed.

Lemma plain_name_spec (e : string) :
  plain_name e = true ->
  e <> EmptyString /\ String.eqb e EmptyString = false /\ String.eqb e "." = false /\
  String.eqb e ".." = false /\ text.forallb no_slash e = true.
Proof.
  unfold plain_name. intros H.
  apply andb_prop in H as [H H4]. apply andb_prop in H as [H H3].
  apply andb_prop in H as [H1 H2].
  apply negb_true_iff in H1, H2, H3. repeat split; try assumption.
  intros ->. discriminate H1.
Qed.

Lemma join_cons (sep x : string) (xs : list string) :
  xs <> [] -> text.join sep (x :: xs) = x +:+ sep +:+ text.join sep xs.
Proof. destruct xs; [congruence | reflexivity]. Qed.

Lemma split_join (elems : list string) :
  elems <> [] ->
  Forall (fun e => plain_name e = true) elems ->
  text.split "/" (text.join "/" elems) = elems.
Proof.
  induction elems as [|e elems IH]; [congruence|]. intros _ Hp.
  inversion Hp as [|? ? He Hp']; subst.
  apply plain_name_spec in He as (_ & _ & _ & _ & He).
  destruct elems as [|e' elems]; [apply split_plain, He|].
  rewrite join_cons by discriminate.
  change (e +:+ "/" +:+ text.join "/" (e' :: elems))
    with (e +:+ String "/" (text.join "/" (e' :: elems))).
  rewrite split_app_sep, split_plain by exact He.
  rewrite IH by (try discriminate; exact Hp'). reflexivity.
Qed.

Lemma clean_plain (rooted : bool) (elems : list string) : forall kept : list string,
  Forall (fun e => plain_name e = true) elems ->
  fold_left (filepath.clean_step rooted) elems kept = (rev elems ++ kept)%list.
Proof.
  induction elems as [|e elems IH]; intros kept Hp; [reflexivity|].
  inversion Hp as [|? ? He Hp']; subst.
  apply plain_name_spec in He as (_ & H1 & H2 & H3 & _).
  cbn [fold_left rev]. unfold filepath.clean_step at 2. rewrite H1, H2, H3.
  cbn [orb]. rewrite IH by exact Hp'. rewrite <- app_assoc. reflexivity.
Qed.

Lemma plain_not_rooted (e : string) (tail : string) :
  plain_name e = true -> filepath.IsAbs (e +:+ tail) = false.
Proof.
  intros (Hne & _ & _ & _ & Hs)%plain_name_spec.
  destruct e as [|c e]; [congruence|]. cbn [text.forallb] in Hs.
  apply andb_prop in Hs as [Hc _]. unfold no_slash in Hc. apply negb_true_iff in Hc.
  change (String c e +:+ tail) with (String c (e +:+ tail)).
  unfold filepath.IsAbs.
  destruct c as [[] [] [] [] [] [] [] []]; try reflexivity. discriminate Hc.
Qed.

Lemma join_nonempty (elems : list string) :
  elems <> [] -> Forall (fun e => plain_name e = true) elems ->
  String.eqb (text.join "/" elems) EmptyString = false /\
  filepath.IsAbs (text.join "/" elems) = false /\
  forall tail, filepath.IsAbs (text.join "/" elems +:+ tail) = false.
Proof.
  destruct elems as [|e elems]; [congruence|]. intros _ Hp.
  inversion Hp as [|? ? He Hp']; subst.
  assert (Hs : exists rest, text.join "/" (e :: elems) = e +:+ rest).
  { destruct elems; [exists EmptyString; symmetry; apply append_empty_r|].
    eexists. reflexivity. }
  destruct Hs as [rest ->]. split; [|split].
  - destruct (plain_name_spec e He) as (Hne & _).
    destruct e; [congruence | reflexivity].
  - apply plain_not_rooted, He.
  - intros tail. rewrite append_assoc. apply plain_not_rooted, He.
Qed.

(** The elements that [Clean] keeps of a path that is made of plain
    names, whether or not the path ends in a separator. *)
Lemma cleaned_elements (rooted : bool) (elems : list string) (tail : list string) :
  Forall (fun e => plain_name e = true) elems ->
  Forall (fun e => plain_name e = true) tail ->
  (rooted = false -> elems <> []) ->
  forall s,
    text.split "/" s = tail \/ text.split "/" s = EmptyString :: tail ->
    fold_left (filepath.clean_step rooted)
      (text.split "/" (path_of rooted elems +:+ String "/" s)) []
    = rev (elems ++ tail).
Proof.
  intros He Ht Hr s Hs.
  assert (Hsplit : exists skipped,
             text.split "/" (path_of rooted elems +:+ String "/" s)
             = (skipped ++ elems ++ text.split "/" s)%list /\
             Forall (fun e => e = EmptyString) skipped).
  { unfold path_of. destruct rooted.
    - change (String "/" (text.join "/" elems) +:+ String "/" s)
        with (String "/" (text.join "/" elems +:+ String "/" s)).
      cbn [text.split]. change (Ascii.eqb "/" "/") with true. cbv iota.
      rewrite split_app_sep.
      destruct elems as [|e elems'].
      + exists [EmptyString; EmptyString]. split; [reflexivity|]. repeat constructor.
      + rewrite split_join by (try discriminate; exact He).
        exists [EmptyString]. split; [reflexivity|]. repeat constructor.
    - rewrite split_app_sep, split_join by (auto; exact He).
      exists []. split; [reflexivity|]. constructor. }
  destruct Hsplit as (skipped & -> & Hsk).
  assert (Hskip : forall l kept, Forall (fun e => e = EmptyString) l ->
             forall rest, fold_left (filepath.clean_step rooted) (l ++ rest) kept
                          = fold_left (filepath.clean_step rooted) rest kept).
  { induction l as [|x l IH]; intros kept Hl rest; [reflexivity|].
    inversion Hl as [|? ? Hx Hl']; subst. cbn [app fold_left].
    unfold filepath.clean_step at 2. cbn [String.eqb orb]. apply IH, Hl'. }
  rewrite Hskip by exact Hsk.
  rewrite fold_left_app, (clean_plain rooted elems [] He), app_nil_r.
  destruct Hs as [-> | ->].
  - rewrite (clean_plain rooted tail _ Ht), rev_app_distr. reflexivity.
  - cbn [fold_left]. unfold filepath.clean_step at 2. cbn [String.eqb orb].
    rewrite (clean_plain rooted tail _ Ht), rev_app_distr. reflexivity.
Qed.

Lemma Clean_plain (rooted : bool) (elems tail : list string) (s : string) :
  Forall (fun e => plain_name e = true) elems ->
  Forall (fun e => plain_name e = true) tail ->
  (rooted = false -> elems <> []) ->
  text.split "/" s = tail \/ text.split "/" s = EmptyString :: tail ->
  filepath.Clean (path_of rooted elems +:+ String "/" s) = path_of rooted (elems ++ tail).
Proof.
  intros He Ht Hr Hs. unfold filepath.Clean.
  assert (Ha : filepath.IsAbs (path_of rooted elems +:+ String "/" s) = rooted).
  { unfold path_of. destruct rooted; [reflexivity|].
    apply join_nonempty; auto. }
  rewrite Ha, (cleaned_elements rooted elems tail He Ht Hr s Hs), rev_involutive.
  unfold path_of. destruct rooted; [reflexivity|].
  assert (Hne : (elems ++ tail)%list <> [])
    by (intros [E _]%app_eq_nil; apply Hr; auto).
  assert (Hall : Forall (fun e => plain_name e = true) (elems ++ tail))
    by (apply Forall_app; auto).
  destruct (join_nonempty _ Hne Hall) as (-> & _). reflexivity.
Qed.

End PathFacts.

(** X18 ([Path] on plain names).  When the graveyard is a path of plain
    names, absolute or relative, and the name is a plain name, [Path] is
    the graveyard, a separator and the name; a separator at the end of
    the graveyard makes no difference, and cleaning the path again
    changes nothing. *)
Theorem Path_of_plain_names
    (t : Tombstone) (rooted : bool) (elems : list string) (name : string) :
  Forall (fun e => plain_name e = true) elems ->
  plain_name name = true ->
  elems <> [] ->
  let here := with_identity t (path_of rooted elems) name in
  let slash := with_identity t (path_of rooted elems +:+ "/") name in
  Path here = path_of rooted elems +:+ "/" +:+ name /\
  Path slash = Path here /\
  filepath.Clean (Path here) = Path here.
Proof.
  intros He Hn Hne here slash.
  destruct (plain_name_spec name Hn) as (_ & _ & _ & _ & Hslash).
  assert (Hg : forall tail, String.eqb (path_of rooted elems +:+ tail) EmptyString = false).
  { intros tail. unfold path_of. destruct rooted; [reflexivity|].
    destruct elems as [|e elems']; [congruence|].
    inversion He as [|? ? He1 _]; subst.
    destruct (plain_name_spec e He1) as (Hne1 & _).
    destruct e as [|c e]; [congruence|].
    destruct elems'; reflexivity. }
  assert (Hjoin : text.join "/" (elems ++ [name])
                  = text.join "/" elems +:+ "/" +:+ name).
  { clear -Hne. induction elems as [|e elems IH]; [congruence|].
    destruct elems as [|e' elems]; [reflexivity|].
    rewrite <- app_comm_cons.
    rewrite (join_cons "/" e ((e' :: elems) ++ [name])) by discriminate.
    rewrite IH by discriminate.
    rewrite (join_cons "/" e (e' :: elems)) by discriminate.
    rewrite !append_assoc. reflexivity. }
  assert (Hhere : Path here = path_of rooted (elems ++ [name])).
  { unfold Path, here. cbn [Graveyard Name with_identity filepath.Join].
    pose proof (Hg EmptyString) as Hg0. rewrite append_empty_r in Hg0. rewrite Hg0.
    cbn [text.join].
    apply (Clean_plain rooted elems [name] name); auto.
    left. apply split_plain, Hslash. }
  assert (Hplain : path_of rooted (elems ++ [name])
                   = path_of rooted elems +:+ "/" +:+ name).
  { unfold path_of. rewrite Hjoin. destruct rooted; reflexivity. }
  split; [rewrite Hhere; exact Hplain|]. split.
  - rewrite Hhere. unfold Path, slash. cbn [Graveyard Name with_identity filepath.Join].
    rewrite Hg. cbn [text.join].
    rewrite append_assoc.
    change ("/" +:+ "/" +:+ name) with (String "/" (String "/" name)).
    apply (Clean_plain rooted elems [name] (String "/" name)); auto.
    right. cbn [text.split]. change (Ascii.eqb "/" "/") with true. cbv iota.
    rewrite split_plain by exact Hslash. reflexivity.
  - rewrite Hhere at 1. rewrite Hplain.
    change ("/" +:+ name) with (String "/" name).
    rewrite Hhere.
    apply (Clean_plain rooted elems [name] name); auto.
    left. apply split_plain, Hslash.
Qed.

(** X18 at the tombstone [app] of the graveyard [/var/run/graveyard]. *)
Lemma Path_of_plain_names_witness :
  Path deep = "/var/run/graveyard/app" /\
  Path (with_identity deep "/var/run/graveyard/" "app") = Path deep /\
  filepath.Clean (Path deep) = Path deep.
Proof.
  apply (Path_of_plain_names deep true ["var"; "run"; "graveyard"] "app").
  - repeat constructor.
  - reflexivity.
  - discriminate.
Defined.

Section NodeFacts.

Lemma node_at_store_other (files : os.FileSystem) (key other : list string)
    (content : string) (room : nat) (n : os.Node) :
  other <> key -> os.node_at files other = Some n ->
  os.node_at (store files key content room) other = Some n.
Proof. intros Hne Ho. rewrite node_at_store by exact Hne. exact Ho. Qed.

End NodeFacts.

(** X19 (an empty name).  A record whose [Name] is empty, in a graveyard
    that is a path of plain names, cannot be written: its path is the
    graveyard itself, so [Write] makes the graveyard a directory and then
    fails to create the file, and the directories it made stay. *)
Theorem empty_name_cannot_be_written
    (t : Tombstone) (rooted : bool) (elems : list string) (w : World)
    (files1 : os.FileSystem) :
  Forall (fun e => plain_name e = true) elems ->
  elems <> [] ->
  os.node_at (fs w) (os.cwd (fs w)) = Some os.Dir ->
  os.MkdirAll (fs w) (path_of rooted elems) = inr files1 ->
  let t0 := with_identity t (path_of rooted elems) EmptyString in
  Path t0 = path_of rooted elems /\
  Write t0 w
  = (with_fs w files1,
     Some ("failed to create tombstone file: open " +:+ path_of rooted elems
           +:+ ": is a directory")) /\
  os.Stat files1 (path_of rooted elems) = inr os.Dir.
Proof.
  intros He Hne Hcwd Hm t0.
  assert (Hp : Path t0 = path_of rooted elems).
  { unfold Path, t0. cbn [Graveyard Name with_identity filepath.Join].
    assert (String.eqb (path_of rooted elems) EmptyString = false) as ->.
    { unfold path_of. destruct rooted; [reflexivity|].
      apply join_nonempty; assumption. }
    cbn [text.join].
    change (path_of rooted elems +:+ "/" +:+ EmptyString)
      with (path_of rooted elems +:+ String "/" EmptyString).
    rewrite <- (app_nil_r elems) at 2.
    apply (Clean_plain rooted elems [] EmptyString); auto. }
  destruct (MkdirAll_Stat _ _ _ Hcwd Hm) as [Hs _].
  split; [exact Hp|]. split; [|exact Hs].
  unfold Write. change (Graveyard t0) with (path_of rooted elems). rewrite Hm, Hp.
  unfold os.Create. unfold os.Stat in Hs.
  destruct (os.resolve files1 "stat" (path_of rooted elems)) as [|key] eqn:Er; [discriminate|].
  rewrite (resolve_same _ _ "open" _ _ Er).
  destruct (os.node_at files1 key) as [[|c]|]; try discriminate.
  reflexivity.
Qed.

(** X19 at the graveyard [/var/run/graveyard] on an empty device. *)
Lemma empty_name_cannot_be_written_witness :
  snd (Write (with_identity deep "/var/run/graveyard" EmptyString) (world_at bare noon))
  = Some "failed to create tombstone file: open /var/run/graveyard: is a directory" /\
  os.Stat (fs (fst (Write (with_identity deep "/var/run/graveyard" EmptyString)
                      (world_at bare noon))))
    "/var/run/graveyard" = inr os.Dir.
Proof.
  destruct (os.MkdirAll bare "/var/run/graveyard") as [err|files1] eqn:Em;
    [vm_compute in Em; discriminate Em|].
  destruct (empty_name_cannot_be_written deep true ["var"; "run"; "graveyard"]
              (world_at bare noon) files1)
    as (_ & Hw & Hs).
  - repeat constructor.
  - discriminate.
  - reflexivity.
  - exact Em.
  - cbv zeta in Hw. change (path_of true ["var"; "run"; "graveyard"])
      with "/var/run/graveyard" in Hw, Hs.
    rewrite Hw. split; [reflexivity | exact Hs].
Defined.

(** X20 ([Write] and the other files).  Whatever [Write] returns, it
    removes no node of the file system and changes at most one: every
    directory and every file that was there is there afterwards, with the
    content it had, except the tombstone file itself. *)
Theorem Write_touches_no_other_file (t : Tombstone) (w : World) :
  exists key : list string,
    (forall (other : list string) (n : os.Node),
        other <> key ->
        os.node_at (fs w) other = Some n ->
        os.node_at (fs (fst (Write t w))) other = Some n) /\
    (forall files1 files2 file,
        os.MkdirAll (fs w) (Graveyard t) = inr files1 ->
        os.Create files1 (Path t) = inr (files2, file) ->
        os.node file = key) /\
    os.cwd (fs (fst (Write t w))) = os.cwd (fs w).
Proof.
  unfold Write.
  destruct (os.MkdirAll (fs w) (Graveyard t)) as [e|files1] eqn:Em.
  { exists []. cbn [fst]. repeat split; auto. intros ? ? ? [=]. }
  assert (Hkeep : forall other n, os.node_at (fs w) other = Some n ->
                                  os.node_at files1 other = Some n /\
                                  os.cwd files1 = os.cwd (fs w)).
  { unfold os.MkdirAll in Em.
    destruct (String.eqb (Graveyard t) EmptyString); [discriminate|].
    destruct (os.mkdir_along _ _ _) as [|fs1] eqn:Ea; [discriminate|].
    injection Em as <-. intros other n Ho. split.
    - eapply mkdir_along_keeps; eassumption.
    - eapply mkdir_along_cwd; eassumption. }
  assert (Hcwd : os.cwd files1 = os.cwd (fs w)) by (apply (Hkeep [] os.Dir); reflexivity).
  destruct (os.Create files1 (Path t)) as [e|[files2 file]] eqn:Ec.
  { exists []. cbn [fst fs with_fs]. repeat split; auto.
    - intros other n _ Ho. apply Hkeep, Ho.
    - intros ? ? ? [= <-]. rewrite Ec. intros [=]. }
  destruct (Create_shape _ _ _ _ Ec) as (key & room & Hr & Hk & -> & ->).
  exists key.
  destruct (yaml.Marshal t) as [e|pretty].
  - cbn [fst fs with_fs os.Close]. repeat split.
    + intros other n Hne Ho. apply node_at_store_other; [exact Hne|]. apply Hkeep, Ho.
    + intros ? ? ? [= <-]. rewrite Ec. intros [= <- <-]. reflexivity.
    + exact Hcwd.
  - destruct (Write_shape files1 (Path t) key room pretty) as (n & room' & ->).
    cbn [fst fs with_fs os.Close]. repeat split.
    + intros other m Hne Ho. apply node_at_store_other; [exact Hne|]. apply Hkeep, Ho.
    + intros ? ? ? [= <-]. rewrite Ec. intros [= <- <-]. reflexivity.
    + exact Hcwd.
Qed.


(** X20 at a graveyard that holds two tombstones when a third is
    written. *)
Lemma Write_touches_no_other_file_witness :
  os.node_at (fs (fst (Write born_at_noon (world_at two_tombstones noon)))) ["g"; "a"]
  = Some (os.Regular EmptyString).
Proof.
  destruct (Write_touches_no_other_file born_at_noon (world_at two_tombstones noon))
    as (key & Hkeep & Hkey & _).
  destruct (os.MkdirAll two_tombstones "/g") as [err|files1] eqn:Em;
    [vm_compute in Em; discriminate Em|].
  destruct (os.Create files1 "/g/app") as [err|[files2 file]] eqn:Ec.
  { vm_compute in Em. injection Em as <-. vm_compute in Ec. discriminate Ec. }
  assert (Hk : os.node file = key) by (apply (Hkey files1 files2 file); assumption).
  apply Hkeep; [|reflexivity].
  rewrite <- Hk. vm_compute in Em. injection Em as <-. vm_compute in Ec.
  injection Ec as _ <-. discriminate.
Defined.
